(** * Verification of the Pwned Passwords client (package hibp)

    A shallow embedding of the response buffer (parsing and lookup), the
    reference-counted task, the request table and the [Check] entry point,
    followed by the properties established for them. *)

From Stdlib Require Import ZArith List Bool Lia Sorted.
From Stdlib Require Import Strings.Byte Strings.String.
From Equations Require Import Equations.
From stdpp Require Import base gmap strings list.
Import ListNotations.

Local Open Scope Z_scope.

(** ** Bytes and byte slices *)

(** A Go [byte] is [Byte.byte]; a [[]byte] is a list of them.  [bytes s]
    is the slice holding the characters of the literal [s]. *)
Definition bytes (s : string) : list byte := list_byte_of_string s.

Definition byte_val (b : byte) : Z := Z.of_N (Byte.to_N b).

Definition LF : byte := x0a.
Definition COLON : byte := x3a.
Definition ZERO : byte := x30.

(** Character classes of the line pattern: [[0-9]], [[0-9A-F]] and Go's
    [\s], which is [[\t\n\f\r ]]. *)
Definition is_digit (b : byte) : bool :=
  (48 <=? byte_val b) && (byte_val b <=? 57).

Definition is_upper_hex (b : byte) : bool :=
  is_digit b || ((65 <=? byte_val b) && (byte_val b <=? 70)).

Definition is_space (b : byte) : bool :=
  (byte_val b =? 9) || (byte_val b =? 10) || (byte_val b =? 12)
  || (byte_val b =? 13) || (byte_val b =? 32).

(** [bytes.Compare]: lexicographic comparison, result in {-1, 0, 1}. *)
Fixpoint bytes_Compare (a b : list byte) : Z :=
  match a, b with
  | [], [] => 0
  | [], _ :: _ => -1
  | _ :: _, [] => 1
  | x :: a', y :: b' =>
      if byte_val x <? byte_val y then -1
      else if byte_val y <? byte_val x then 1
      else bytes_Compare a' b'
  end.

(** [bytes.Equal]. *)
Fixpoint bytes_Equal (a b : list byte) : bool :=
  match a, b with
  | [], [] => true
  | x :: a', y :: b' => Byte.eqb x y && bytes_Equal a' b'
  | _, _ => false
  end.

(** ** The response buffer *)

Record pwnedResultBuffer := mkBuffer {
  Buffer : list byte;
  SuffixesSorted : bool;
  Suffixes : list (list byte)
}.

(** [span p l] is the longest prefix of [l] satisfying [p] and the rest. *)
Fixpoint span (p : byte -> bool) (l : list byte) : list byte * list byte :=
  match l with
  | [] => ([], [])
  | b :: l' =>
      if p b then let (u, v) := span p l' in (b :: u, v) else ([], l)
  end.

(** [pwnedLinePattern.FindSubmatch] for the pattern
    [^([0-9A-F]{35}):([0-9]+)\s*$]: the two groups, or [None] when the
    line does not match.  The pattern is anchored on both sides and the
    classes [[0-9]] and [\s] are disjoint, so the greedy digit group is the
    maximal run of digits after the colon. *)
Definition pwnedLinePattern_FindSubmatch (line : list byte)
  : option (list byte * list byte) :=
  let suffix := firstn 35 line in
  if (length suffix =? 35)%nat && forallb is_upper_hex suffix then
    match skipn 35 line with
    | c :: rest =>
        if Byte.eqb c COLON then
          let (occurrence, tail) := span is_digit rest in
          match occurrence with
          | [] => None
          | _ :: _ =>
              if forallb is_space tail then Some (suffix, occurrence)
              else None
          end
        else None
    | [] => None
    end
  else None.

(** [Buffer.ReadBytes(delim)]: the bytes up to and including the first
    [delim], the unread rest, and whether [io.EOF] was returned (no
    delimiter before the end of the buffer). *)
Fixpoint ReadBytes (delim : byte) (b : list byte)
  : list byte * list byte * bool :=
  match b with
  | [] => ([], [], true)
  | x :: b' =>
      if Byte.eqb x delim then ([x], b', false)
      else let '(line, rest, eof) := ReadBytes delim b' in
           (x :: line, rest, eof)
  end.

(** The last element of the parsed suffixes, [buf.Suffixes[len-1]]. *)
Definition last_suffix (l : list (list byte)) : option (list byte) :=
  last l.

(** The test on the occurrence count in [Parse]:
    [len(occurrence) > 1 || (len(occurrence) == 1 && occurrence[0] != '0')]. *)
Definition kept (occurrence : list byte) : bool :=
  (1 <? Z.of_nat (length occurrence))
  || ((Z.of_nat (length occurrence) =? 1)
      && negb (Byte.eqb (hd ZERO occurrence) ZERO)).

(** One iteration of the body of the loop of [Parse], after the line has
    been read: match, update of the sorted flag, append when the
    occurrence count passes the test. *)
Definition Parse_line (line : list byte) (buf : pwnedResultBuffer)
  : pwnedResultBuffer :=
  match pwnedLinePattern_FindSubmatch line with
  | None => buf
  | Some (suffix, occurrence) =>
      let sorted :=
        if SuffixesSorted buf && (0 <? Z.of_nat (length (Suffixes buf))) then
          match last_suffix (Suffixes buf) with
          | Some prev =>
              if 0 <=? bytes_Compare prev suffix then false
              else SuffixesSorted buf
          | None => SuffixesSorted buf
          end
        else SuffixesSorted buf in
      mkBuffer (Buffer buf) sorted
        (if kept occurrence then Suffixes buf ++ [suffix] else Suffixes buf)
  end.

Lemma ReadBytes_shorter delim b line rest :
  ReadBytes delim b = (line, rest, false) ->
  (length rest < length b)%nat.
Proof.
  revert line rest.
  induction b as [|x b IH]; intros line rest; simpl.
  - discriminate.
  - destruct (Byte.eqb x delim).
    + intros [= _ <-]. lia.
    + destruct (ReadBytes delim b) as [[l r] e].
      intros [= _ <- ->]. specialize (IH l r eq_refl). lia.
Defined.

(** [inspect a] keeps the equation between a scrutinee and its value. *)
Definition inspect {A : Type} (a : A) : {b : A | a = b} := exist _ a eq_refl.

(** The loop of [Parse]: read a line, process it, stop after the read
    that reported [io.EOF]. *)
Equations Parse_loop (buf : pwnedResultBuffer) : pwnedResultBuffer
  by wf (length (Buffer buf)) lt :=
  Parse_loop buf with inspect (ReadBytes LF (Buffer buf)) := {
    | exist _ (line, rest, true) _ =>
        Parse_line line (mkBuffer rest (SuffixesSorted buf) (Suffixes buf));
    | exist _ (line, rest, false) e =>
        Parse_loop
          (Parse_line line (mkBuffer rest (SuffixesSorted buf) (Suffixes buf)))
  }.
Next Obligation.
  intros buf line rest e _. unfold Parse_line.
  destruct (pwnedLinePattern_FindSubmatch line) as [[s o]|];
    simpl; eapply ReadBytes_shorter; exact e.
Defined.

(** [Parse]: the flag is set, the loop runs, and the deferred
    [Buffer.Reset] empties the raw buffer. *)
Definition Parse (buf : pwnedResultBuffer) : pwnedResultBuffer :=
  let r := Parse_loop (mkBuffer (Buffer buf) true (Suffixes buf)) in
  mkBuffer [] (SuffixesSorted r) (Suffixes r).

(** [sort.Search(n, f)] of Go's standard library: binary search for the
    least index in [0, n) at which [f] holds, [n] when there is none.  The
    midpoint is [int(uint(i+j) >> 1)], computed on 64 bits.  The loop
    [for i < j] is unrolled [fuel] times; each iteration shrinks [j - i], so
    [n] iterations are enough ([Search_loop_fuel] below). *)
Fixpoint Search_loop (fuel : nat) (f : Z -> bool) (i j : Z) : Z :=
  match fuel with
  | O => i
  | S fuel' =>
      if i <? j then
        let h := Z.shiftr ((i + j) mod 2 ^ 64) 1 in
        if negb (f h) then Search_loop fuel' f (h + 1) j
        else Search_loop fuel' f i h
      else i
  end.

Definition sort_Search (n : Z) (f : Z -> bool) : Z :=
  Search_loop (Z.to_nat n) f 0 n.

(** [buf.Suffixes[i]].  Go panics when [i] is out of range; the two uses
    in [Lookup] are in range ([sort_Search_ext], [Lookup] checks
    [index < len]), so the default is never observed. *)
Definition index_at (l : list (list byte)) (i : Z) : list byte :=
  nth (Z.to_nat i) l [].

(** The linear scan of [Lookup]. *)
Fixpoint scan (suffixes : list (list byte)) (suffix : list byte) : bool :=
  match suffixes with
  | [] => false
  | s :: rest => if bytes_Equal s suffix then true else scan rest suffix
  end.

(** [Lookup]: linear scan when the flag is off, binary search otherwise. *)
Definition Lookup (buf : pwnedResultBuffer) (suffix : list byte) : bool :=
  if negb (SuffixesSorted buf) then scan (Suffixes buf) suffix
  else
    let n := Z.of_nat (length (Suffixes buf)) in
    let index :=
      sort_Search n
        (fun i => 0 <=? bytes_Compare (index_at (Suffixes buf) i) suffix) in
    if index <? n then bytes_Equal suffix (index_at (Suffixes buf) index)
    else false.

(** ** Hashing the password

    [crypto/sha1], [encoding/hex] and [strings.ToUpper] belong to Go's
    standard library; they are written out here so that [Check] can be
    run on the passwords of the test suite. *)

Definition byte_of_Z (z : Z) : byte :=
  match Byte.of_N (Z.to_N (z mod 256)) with
  | Some b => b
  | None => x00
  end.

Module SHA1.

Definition w32 (x : Z) : Z := x mod 2 ^ 32.

Definition rotl (n x : Z) : Z :=
  w32 (Z.lor (Z.shiftl x n) (Z.shiftr x (32 - n))).

(** Big-endian encoding of [x] on [n] bytes. *)
Fixpoint be_bytes (n : nat) (x : Z) : list Z :=
  match n with
  | O => []
  | S n' => (Z.shiftr x (8 * Z.of_nat n')) mod 256 :: be_bytes n' x
  end.

Definition pad (msg : list Z) : list Z :=
  let l := Z.of_nat (length msg) in
  msg ++ [128] ++ repeat 0 (Z.to_nat ((55 - l) mod 64)) ++ be_bytes 8 (8 * l).

Fixpoint words (l : list Z) : list Z :=
  match l with
  | a :: b :: c :: d :: r =>
      (a * 2 ^ 24 + b * 2 ^ 16 + c * 2 ^ 8 + d) :: words r
  | _ => []
  end.

(** The message schedule, most recent word first. *)
Fixpoint schedule (n : nat) (rev_w : list Z) : list Z :=
  match n with
  | O => rev_w
  | S n' =>
      let x := Z.lxor (Z.lxor (nth 2 rev_w 0) (nth 7 rev_w 0))
                 (Z.lxor (nth 13 rev_w 0) (nth 15 rev_w 0)) in
      schedule n' (rotl 1 x :: rev_w)
  end.

Definition state : Type := Z * Z * Z * Z * Z.

Definition round (t : Z) (w : Z) (s : state) : state :=
  let '(a, b, c, d, e) := s in
  let not_b := Z.lxor b (2 ^ 32 - 1) in
  let '(f, k) :=
    if t <? 20 then (Z.lor (Z.land b c) (Z.land not_b d), 1518500249)
    else if t <? 40 then (Z.lxor (Z.lxor b c) d, 1859775393)
    else if t <? 60 then
      (Z.lor (Z.lor (Z.land b c) (Z.land b d)) (Z.land c d), 2400959708)
    else (Z.lxor (Z.lxor b c) d, 3395469782) in
  (w32 (rotl 5 a + f + e + k + w), a, rotl 30 b, c, d).

Fixpoint rounds (t : Z) (ws : list Z) (s : state) : state :=
  match ws with
  | [] => s
  | w :: ws' => rounds (t + 1) ws' (round t w s)
  end.

Definition block (h : state) (w16 : list Z) : state :=
  let ws := rev (schedule 64 (rev w16)) in
  let '(h0, h1, h2, h3, h4) := h in
  let '(a, b, c, d, e) := rounds 0 ws h in
  (w32 (h0 + a), w32 (h1 + b), w32 (h2 + c), w32 (h3 + d), w32 (h4 + e)).

Fixpoint blocks (n : nat) (h : state) (ws : list Z) : state :=
  match n with
  | O => h
  | S n' =>
      match ws with
      | [] => h
      | _ :: _ => blocks n' (block h (firstn 16 ws)) (skipn 16 ws)
      end
  end.

Definition init : state :=
  (1732584193, 4023233417, 2562383102, 271733878, 3285377520).

Definition word_bytes (x : Z) : list byte := map byte_of_Z (be_bytes 4 x).

(** [sha1.Sum]: the 20-byte digest. *)
Definition Sum (data : list byte) : list byte :=
  let ws := words (pad (map byte_val data)) in
  let '(h0, h1, h2, h3, h4) := blocks (length ws) init ws in
  word_bytes h0 ++ word_bytes h1 ++ word_bytes h2 ++ word_bytes h3
    ++ word_bytes h4.

End SHA1.

Definition hextable : list byte := bytes "0123456789abcdef".

(** [hex.EncodeToString]: two lowercase hexadecimal characters per byte. *)
Fixpoint hex_Encode (src : list byte) : list byte :=
  match src with
  | [] => []
  | v :: src' =>
      nth (Z.to_nat (Z.shiftr (byte_val v) 4)) hextable x00
        :: nth (Z.to_nat (Z.land (byte_val v) 15)) hextable x00
        :: hex_Encode src'
  end.

Definition hex_EncodeToString (src : list byte) : string :=
  string_of_list_byte (hex_Encode src).

(** [strings.ToUpper] on ASCII text: [a..z] become [A..Z]; the digest in
    hexadecimal is ASCII. *)
Definition upper_byte (b : byte) : byte :=
  if (97 <=? byte_val b) && (byte_val b <=? 122) then byte_of_Z (byte_val b - 32)
  else b.

Definition strings_ToUpper (s : string) : string :=
  string_of_list_byte (map upper_byte (list_byte_of_string s)).

(** The uppercase hexadecimal digest computed at the start of [Check]. *)
Definition hexsum_of (password : string) : list byte :=
  list_byte_of_string
    (strings_ToUpper (hex_EncodeToString (SHA1.Sum (list_byte_of_string password)))).

(** ** Requests, responses and errors *)

(** A [context.Context]; a nil context is [None] where one is expected. *)
Inductive Context := context_Background | context_Other (id : nat).

Record Request := mkRequest {
  Method : string;
  URL : string;
  Header : list (string * string);
  ReqContext : Context
}.

(** [*http.Response], the [io.ReadCloser] in its [Body] and the [error]
    values of the package.  A body handed over by the transport is a
    [reader]: it delivers [data] and then ends, or fails with [err]; after
    a successful fetch [doRequest] replaces it by the parsed buffer. *)
Inductive Response :=
| mkResponse (StatusCode : Z) (Status : string) (Body : ReadCloser)
with ReadCloser :=
| reader (data : list byte) (err : option error)
| resultBuffer (buf : pwnedResultBuffer)
with error :=
| errorString (msg : string)
| ErrorUnexpectedResponse (Response : Response).

Definition StatusCode (r : Response) : Z :=
  match r with mkResponse c _ _ => c end.
Definition Status (r : Response) : string :=
  match r with mkResponse _ s _ => s end.
Definition Body (r : Response) : ReadCloser :=
  match r with mkResponse _ _ b => b end.
Definition set_Body (r : Response) (b : ReadCloser) : Response :=
  match r with mkResponse c s _ => mkResponse c s b end.

Definition http_StatusOK : Z := 200.
Definition http_MethodGet : string := "GET".

(** [PwnedPasswordsURL]. *)
Definition PwnedPasswordsURL (prefix : string) : string :=
  String.append "https://api.pwnedpasswords.com/range/" prefix.

Definition DefaultUserAgent : string := "https://github.com/supabase/hibp".

(** [http.NewRequestWithContext(ctx, method, url, nil)].  It fails on a nil
    context; the URLs built here (a fixed host and path followed by the
    prefix) parse. *)
Definition http_NewRequestWithContext (ctx : option Context) (method url : string)
  : Request + error :=
  match ctx with
  | None => inr (errorString "net/http: nil Context")
  | Some c => inl (mkRequest method url [] c)
  end.

Definition Header_Set (key value : string) (req : Request) : Request :=
  mkRequest (Method req) (URL req)
    ((key, value) :: filter (fun kv => negb (String.eqb (fst kv) key)) (Header req))
    (ReqContext req).

(** [Buffer.ReadFrom(body)]: everything the body delivers, and the error
    it ended with, if any.  Reading a [pwnedResultBuffer] reads its raw
    buffer. *)
Definition read_all (body : ReadCloser) : list byte * option error :=
  match body with
  | reader data err => (data, err)
  | resultBuffer b => (Buffer b, None)
  end.

(** The calls made to the two collaborators, in order. *)
Inductive Event :=
| EvDo (req : Request)
| EvContains (prefix suffix : list byte)
| EvAdd (prefix : list byte) (suffixes : list (list byte)).

Definition is_EvDo (e : Event) : bool :=
  match e with EvDo _ => true | _ => false end.

Definition is_EvAdd (e : Event) : bool :=
  match e with EvAdd _ _ => true | _ => false end.

(** [sync.OnceValues(f)]: the function has not run yet (the closure keeps
    the context and the prefix), or its two results are memoized. *)
Inductive OnceValues :=
| once_pending (ctx : Context) (prefix : list byte)
| once_done (res : option Response) (err : option error).

(** [refcountBox].  [OnRelease] is the closure built in [doCheck], which
    captures [prefixString] and the pooled buffer ([None] once the field
    is set to nil); [box_buffer] is the content of that pooled
    [*bytes.Buffer], shared by the two closures of the box. *)
Record refcountBox := mkBox {
  Refcount : Z;
  OnRelease : option string;
  Value : OnceValues;
  box_buffer : list byte
}.

(** [atomic.AddInt32]: addition on 32 bits, two's complement. *)
Definition wrap32 (z : Z) : Z := (z + 2 ^ 31) mod 2 ^ 32 - 2 ^ 31.

Section Client.

(** The state of the collaborators (transport and cache). *)
Context {W : Type}.

Record HTTPClient := mkHTTP {
  Do : Request -> W -> (option Response * option error) * W
}.

Record PwnedCache := mkCache {
  Add : Context -> list byte -> list (list byte) -> W -> option error * W;
  Contains : Context -> list byte -> list byte -> W -> (bool * option error) * W
}.

Record PwnedClient := mkClient {
  UserAgent : string;
  Cache : option PwnedCache;
  HTTP : option HTTPClient
}.

(** [http.DefaultClient], used when [HTTP] is nil. *)
Variable http_DefaultClient : HTTPClient.

(** The mutable state: the collaborators, the calls made to them, the
    package-level [bufferPool] (contents of the pooled buffers; the
    slices of [suffixesPool] always have length 0), the [requests] table
    of the client and the boxes it points to. *)
Record State := mkState {
  world : W;
  trace : list Event;
  bufferPool : list (list byte);
  requests : gmap string nat;
  boxes : list refcountBox
}.

(** Computations on the state.  The first component of the outcome is
    [None] when the computation ends in a run-time panic; the state is
    then the one reached when it panics. *)
Definition M (A : Type) : Type := State -> option A * State.

Definition ret {A} (a : A) : M A := fun st => (Some a, st).

Definition bind {A B} (m : M A) (k : A -> M B) : M B :=
  fun st => match m st with
            | (Some a, st') => k a st'
            | (None, st') => (None, st')
            end.

Definition panic {A} : M A := fun st => (None, st).

Notation "x <-- m ;; k" := (bind m (fun x => k))
  (at level 100, m at next level, right associativity).
Notation "m ;;; k" := (bind m (fun _ => k))
  (at level 100, right associativity).

Definition call_Do (client : HTTPClient) (req : Request)
  : M (option Response * option error) :=
  fun st =>
    let (r, w) := Do client req (world st) in
    (Some r, mkState w (trace st ++ [EvDo req]) (bufferPool st)
               (requests st) (boxes st)).

Definition call_Contains (cache : PwnedCache) (ctx : Context)
    (prefix suffix : list byte) : M (bool * option error) :=
  fun st =>
    let (r, w) := Contains cache ctx prefix suffix (world st) in
    (Some r, mkState w (trace st ++ [EvContains prefix suffix])
               (bufferPool st) (requests st) (boxes st)).

Definition call_Add (cache : PwnedCache) (ctx : Context)
    (prefix : list byte) (suffixes : list (list byte)) : M (option error) :=
  fun st =>
    let (r, w) := Add cache ctx prefix suffixes (world st) in
    (Some r, mkState w (trace st ++ [EvAdd prefix suffixes])
               (bufferPool st) (requests st) (boxes st)).

(** The request that [doRequest] builds (its first lines), and the
    transport it hands it to. *)
Definition request_for (c : PwnedClient) (ctx : Context) (prefix : list byte)
  : Request :=
  let userAgent :=
    if String.eqb (UserAgent c) "" then DefaultUserAgent else UserAgent c in
  let req :=
    mkRequest http_MethodGet (PwnedPasswordsURL (string_of_list_byte prefix))
      [] ctx in
  if negb (String.eqb userAgent "")
  then Header_Set "User-Agent" userAgent req else req.

Definition client_of (c : PwnedClient) : HTTPClient :=
  match HTTP c with
  | Some h => h
  | None => http_DefaultClient
  end.

(** [doRequest].  The third component of the result is [buf] as the call
    leaves it ([buf] is passed by pointer). *)
Definition doRequest (c : PwnedClient) (ctx : option Context)
    (buf : pwnedResultBuffer) (prefix : list byte)
  : M (option Response * option error * pwnedResultBuffer) :=
  match http_NewRequestWithContext ctx http_MethodGet
          (PwnedPasswordsURL (string_of_list_byte prefix)) with
  | inr err => ret (None, Some err, buf)
  | inl req =>
      let userAgent :=
        if String.eqb (UserAgent c) "" then DefaultUserAgent
        else UserAgent c in
      let req :=
        if negb (String.eqb userAgent "")
        then Header_Set "User-Agent" userAgent req else req in
      let client :=
        match HTTP c with Some h => h | None => http_DefaultClient end in
      r <-- call_Do client req ;;
      match r with
      | (res, Some err) => ret (res, Some err, buf)
      | (None, None) => panic
      | (Some res, None) =>
          if StatusCode res =? http_StatusOK then
            let (data, rerr) := read_all (Body res) in
            let buf1 :=
              mkBuffer (Buffer buf ++ data) (SuffixesSorted buf)
                (Suffixes buf) in
            match rerr with
            | Some err => ret (Some res, Some err, buf1)
            | None =>
                let buf2 := Parse buf1 in
                aerr <--
                  match Cache c with
                  | Some cache =>
                      if 0 <? Z.of_nat (length (Suffixes buf2))
                      then call_Add cache (ReqContext req) prefix
                             (Suffixes buf2)
                      else ret None
                  | None => ret None
                  end ;;
                match aerr with
                | Some err => ret (Some res, Some err, buf2)
                | None =>
                    ret (Some (set_Body res (resultBuffer buf2)), None, buf2)
                end
            end
          else ret (Some res, None, buf)
      end
  end.

Definition get_box (b : nat) : M refcountBox :=
  fun st => (boxes st !! b, st).

Definition set_box (b : nat) (box : refcountBox) : M unit :=
  fun st => (Some tt, mkState (world st) (trace st) (bufferPool st)
                        (requests st) (<[b := box]> (boxes st))).

(** [box.Value()]: the first call runs [doRequest] on a fresh
    [pwnedResultBuffer] over the pooled buffer and memoizes its results;
    the later ones return them. *)
Definition box_Value (c : PwnedClient) (b : nat)
  : M (option Response * option error) :=
  box <-- get_box b ;;
  match Value box with
  | once_done res err => ret (res, err)
  | once_pending ctx prefix =>
      r <-- doRequest c (Some ctx) (mkBuffer (box_buffer box) false []) prefix ;;
      let '(res, err, buf) := r in
      box' <-- get_box b ;;
      set_box b (mkBox (Refcount box') (OnRelease box') (once_done res err)
                   (Buffer buf)) ;;;
      ret (res, err)
  end.

(** [Acquire]. *)
Definition Acquire (b : nat) : M unit :=
  box <-- get_box b ;;
  set_box b (mkBox (wrap32 (Refcount box + 1)) (OnRelease box) (Value box)
               (box_buffer box)).

Definition bufferPool_Get : M (list byte) :=
  fun st => match bufferPool st with
            | buffer :: rest =>
                (Some buffer, mkState (world st) (trace st) rest
                                (requests st) (boxes st))
            | [] => (Some [], st)
            end.

Definition bufferPool_Put (buffer : list byte) : M unit :=
  fun st => (Some tt, mkState (world st) (trace st) (buffer :: bufferPool st)
                        (requests st) (boxes st)).

Definition get_requests : M (gmap string nat) :=
  fun st => (Some (requests st), st).

(** [&refcountBox{...}]: a new box; its address is its index. *)
Definition alloc_box (box : refcountBox) : M nat :=
  fun st => (Some (length (boxes st)),
             mkState (world st) (trace st) (bufferPool st)
               (requests st) (boxes st ++ [box])).

Definition set_request (prefix : string) (b : nat) : M unit :=
  fun st => (Some tt, mkState (world st) (trace st) (bufferPool st)
                        (<[prefix := b]> (requests st)) (boxes st)).

(** [doCheck], run under the lock of the client. *)
Definition doCheck (ctx : Context) (prefix : list byte) : M nat :=
  let prefixString := string_of_list_byte prefix in
  table <-- get_requests ;;
  b <-- match table !! prefixString with
        | Some b => ret b
        | None =>
            buffer <-- bufferPool_Get ;;
            b <-- alloc_box (mkBox 0 (Some prefixString)
                               (once_pending ctx prefix) buffer) ;;
            set_request prefixString b ;;;
            ret b
        end ;;
  Acquire b ;;;
  ret b.

(** [releaseRequest], run under the lock of the client. *)
Definition releaseRequest (prefix : string) : M unit :=
  fun st => (Some tt, mkState (world st) (trace st) (bufferPool st)
                        (delete prefix (requests st)) (boxes st)).

(** The three steps of [Release]: the atomic decrement, which reports
    whether the count reached zero; the call of [OnRelease] (a nil
    function panics); the assignment [b.OnRelease = nil]. *)
Definition Release_dec (b : nat) : M bool :=
  box <-- get_box b ;;
  let n := wrap32 (Refcount box - 1) in
  set_box b (mkBox n (OnRelease box) (Value box) (box_buffer box)) ;;;
  ret (n =? 0).

Definition Release_call (b : nat) : M unit :=
  box <-- get_box b ;;
  match OnRelease box with
  | None => panic
  | Some prefixString =>
      releaseRequest prefixString ;;;
      bufferPool_Put (box_buffer box)
  end.

Definition Release_clear (b : nat) : M unit :=
  box <-- get_box b ;;
  set_box b (mkBox (Refcount box) None (Value box) (box_buffer box)).

Definition Release (b : nat) : M unit :=
  zero <-- Release_dec b ;;
  if zero : bool then Release_call b ;;; Release_clear b else ret tt.

(** The outcome of a call of [Check]. *)
Definition result : Type := bool * option error.

Definition lift_option {A} (o : option A) : M A :=
  fun st => (o, st).

(** [Check], first part: the cache is consulted when there is one.
    [Some r] when [Check] returns [r] at once, [None] when it goes on. *)
Definition Check_cache (c : PwnedClient) (ctx : Context)
    (prefix suffix : list byte) : M (option result) :=
  match Cache c with
  | None => ret None
  | Some cache =>
      r <-- call_Contains cache ctx prefix suffix ;;
      match r with
      | (contains, Some err) => ret (Some (contains, Some err))
      | (true, None) => ret (Some (true, None))
      | (false, None) => ret None
      end
  end.

(** [Check], last part: what is returned from the two results of
    [box.Value()].  [None] is a panic (a nil response without error, or
    a body that is not the parsed buffer). *)
Definition Check_result (res : option Response) (err : option error)
    (suffix : list byte) : option result :=
  match err with
  | Some e => Some (false, Some e)
  | None =>
      match res with
      | None => None
      | Some r =>
          if negb (StatusCode r =? http_StatusOK)
          then Some (false, Some (ErrorUnexpectedResponse r))
          else match Body r with
               | resultBuffer buf => Some (Lookup buf suffix, None)
               | reader _ _ => None
               end
      end
  end.

Definition prefix_of (password : string) : list byte :=
  firstn 5 (hexsum_of password).

Definition suffix_of (password : string) : list byte :=
  skipn 5 (hexsum_of password).

Definition ctx_or_Background (ctx : option Context) : Context :=
  match ctx with
  | None => context_Background
  | Some x => x
  end.

(** [Check], run by one caller without interference. *)
Definition Check (c : PwnedClient) (ctx : option Context) (password : string)
  : M result :=
  let ctx := ctx_or_Background ctx in
  let prefix := prefix_of password in
  let suffix := suffix_of password in
  cached <-- Check_cache c ctx prefix suffix ;;
  match cached with
  | Some r => ret r
  | None =>
      box <-- doCheck ctx prefix ;;
      v <-- box_Value c box ;;
      r <-- lift_option (Check_result (fst v) (snd v) suffix) ;;
      Release box ;;;
      ret r
  end.

(** *** Concurrent callers

    Each caller of [Check] is a thread with a program point; a step of a
    thread is one of the atomic sections of [Check]: the cache lookup,
    [doCheck] (under the lock), [box.Value()] (the once-only
    computation: the callers of a box that is being computed wait for
    it, so its result appears to them in one step), the atomic decrement
    of [Release], the call of [OnRelease] (which takes the lock), and
    the assignment of nil to [OnRelease]. *)
Inductive pc :=
| AtCache
| AtDoCheck
| AtValue (box : nat)
| AtRelease (box : nat) (r : result)
| AtOnRelease (box : nat) (r : result)
| AtClear (box : nat) (r : result)
| Returned (r : result).

Record Thread := mkThread {
  t_ctx : Context;
  t_prefix : list byte;
  t_suffix : list byte;
  t_pc : pc
}.

(** A caller that has hashed its password and is about to go on. *)
Definition spawn (ctx : option Context) (password : string) : Thread :=
  mkThread (ctx_or_Background ctx) (prefix_of password) (suffix_of password)
    AtCache.

Definition thread_step (c : PwnedClient) (t : Thread) : M Thread :=
  let goto := mkThread (t_ctx t) (t_prefix t) (t_suffix t) in
  match t_pc t with
  | AtCache =>
      cached <-- Check_cache c (t_ctx t) (t_prefix t) (t_suffix t) ;;
      ret (goto match cached with
                | Some r => Returned r
                | None => AtDoCheck
                end)
  | AtDoCheck =>
      box <-- doCheck (t_ctx t) (t_prefix t) ;;
      ret (goto (AtValue box))
  | AtValue box =>
      v <-- box_Value c box ;;
      r <-- lift_option (Check_result (fst v) (snd v) (t_suffix t)) ;;
      ret (goto (AtRelease box r))
  | AtRelease box r =>
      zero <-- Release_dec box ;;
      ret (goto (if zero : bool then AtOnRelease box r else Returned r))
  | AtOnRelease box r =>
      Release_call box ;;;
      ret (goto (AtClear box r))
  | AtClear box r =>
      Release_clear box ;;;
      ret (goto (Returned r))
  | Returned r => ret t
  end.

Record Machine := mkMachine {
  shared : State;
  threads : list Thread
}.

(** One step of thread [tid]; a thread that has returned, or an unknown
    [tid], leaves the machine as it is.  [None] is a panic, which ends
    the program. *)
Definition step (c : PwnedClient) (tid : nat) (m : Machine) : option Machine :=
  match threads m !! tid with
  | None => Some m
  | Some t =>
      match thread_step c t (shared m) with
      | (Some t', st) => Some (mkMachine st (<[tid := t']> (threads m)))
      | (None, _) => None
      end
  end.

(** A schedule is the list of the threads that step, in order. *)
Fixpoint run (c : PwnedClient) (sched : list nat) (m : Machine)
  : option Machine :=
  match sched with
  | [] => Some m
  | tid :: sched' =>
      match step c tid m with
      | Some m' => run c sched' m'
      | None => None
      end
  end.

(** The number of requests handed to the transport so far. *)
Definition network_requests (st : State) : nat :=
  length (filter (fun e => is_EvDo e = true) (trace st)).

Definition returned (t : Thread) : bool :=
  match t_pc t with
  | Returned _ => true
  | _ => false
  end.

End Client.

(** ** Response bodies, as the wire format describes them *)

(** The lines of a body: the slices that the successive calls of
    [ReadBytes] in [Parse] return, the last one without its newline
    (empty when the body ends in a newline). *)
Fixpoint lines_of (b : list byte) : list (list byte) :=
  match b with
  | [] => [[]]
  | x :: b' =>
      if Byte.eqb x LF then [x] :: lines_of b'
      else match lines_of b' with
           | l :: ls => (x :: l) :: ls
           | [] => [[x]]
           end
  end.

(** The suffixes of the lines that match the pattern, and of those whose
    occurrence count moreover passes the test of [Parse]. *)
Definition matched_suffix (line : list byte) : list (list byte) :=
  match pwnedLinePattern_FindSubmatch line with
  | Some (suffix, _) => [suffix]
  | None => []
  end.

Definition retained_suffix (line : list byte) : list (list byte) :=
  match pwnedLinePattern_FindSubmatch line with
  | Some (suffix, occurrence) => if kept occurrence then [suffix] else []
  | None => []
  end.

Definition matched (lines : list (list byte)) : list (list byte) :=
  flat_map matched_suffix lines.

Definition retained (lines : list (list byte)) : list (list byte) :=
  flat_map retained_suffix lines.

(** A well-formed line: 35 uppercase hexadecimal characters, a colon, a
    decimal count, and white space other than the newline before the end
    of the line (the service sends a carriage return). *)
Record Line := mkLine {
  line_suffix : list byte;
  line_count : list byte;
  line_space : list byte
}.

Definition well_formed (l : Line) : bool :=
  (length (line_suffix l) =? 35)%nat
  && forallb is_upper_hex (line_suffix l)
  && negb (length (line_count l) =? 0)%nat
  && forallb is_digit (line_count l)
  && forallb (fun b => is_space b && negb (Byte.eqb b LF)) (line_space l).

Definition render_unterminated (l : Line) : list byte :=
  line_suffix l ++ COLON :: line_count l ++ line_space l.

Definition render (l : Line) : list byte := render_unterminated l ++ [LF].

(** A body of well-formed lines; the last line may lack its newline. *)
Definition body_of (ls : list Line) (final : option Line) : list byte :=
  concat (map render ls)
  ++ match final with
     | Some l => render_unterminated l
     | None => []
     end.

Definition all_lines (ls : list Line) (final : option Line) : list Line :=
  ls ++ match final with
        | Some l => [l]
        | None => []
        end.

(** The number a decimal count denotes. *)
Definition decimal (count : list byte) : Z :=
  fold_left (fun acc b => 10 * acc + (byte_val b - 48)) count 0.

(** A buffer as [doCheck] and the tests build it: the body in the raw
    buffer, no suffixes yet. *)
Definition holding (body : list byte) : pwnedResultBuffer :=
  mkBuffer body false [].

(** Lines used in the examples below (those of the test suite). *)
Definition suffix_0 : list byte := bytes "0123456789ABCDEF0123456789ABCDEF012".
Definition suffix_1 : list byte := bytes "1123456789ABCDEF0123456789ABCDEF012".
Definition suffix_2 : list byte := bytes "2123456789ABCDEF0123456789ABCDEF012".

Definition line_of (suffix : list byte) (count : string) : Line :=
  mkLine suffix (bytes count) [].

Definition CR : byte := x0d.

(** * The vocabulary of the properties *)

(** The strict order of [bytes.Compare]. *)
Definition blt (a b : list byte) : Prop := bytes_Compare a b < 0.

(** The suffixes are in strictly ascending order of [bytes.Compare]. *)
Definition ascending (l : list (list byte)) : Prop := StronglySorted blt l.

(** What [Parse] needs of a buffer: the flag and the suffixes. *)
Definition view (b : pwnedResultBuffer) : bool * list (list byte) :=
  (SuffixesSorted b, Suffixes b).

Definition line_step (v : bool * list (list byte)) (line : list byte)
  : bool * list (list byte) :=
  view (Parse_line line (mkBuffer [] (fst v) (snd v))).

Definition no_LF (u : list byte) : Prop :=
  forallb (fun b => negb (Byte.eqb b LF)) u = true.

(** [s] occurs in [u] as a contiguous run of bytes. *)
Definition occurs_in (s u : list byte) : Prop :=
  exists a b, u = a ++ s ++ b.

(** ** Executions of the client *)

Section Executions.

Context {W : Type} (dc : @HTTPClient W).
Implicit Types (c : @PwnedClient W) (st : @State W) (m : @Machine W).

(** The state after the transport has answered a request. *)
Definition after_Do st (req : Request) (w : W) : State :=
  mkState w (trace st ++ [EvDo req]) (bufferPool st) (requests st) (boxes st).

Definition after_Add st (prefix : list byte) (ss : list (list byte)) (w : W)
  : State :=
  mkState w (trace st ++ [EvAdd prefix ss]) (bufferPool st) (requests st)
    (boxes st).

(** The state in which a caller that found no task for its prefix runs
    the request: its box, acquired once, is in the table. *)
Definition joined_fresh st (ctx : Context) (prefix : list byte) : State :=
  mkState (world st) (trace st) (tl (bufferPool st))
    (<[string_of_list_byte prefix := length (boxes st)]> (requests st))
    (boxes st ++ [mkBox 1 (Some (string_of_list_byte prefix))
                    (once_pending ctx prefix) (hd [] (bufferPool st))]).

(** Every entry of the table is a box, and a task entered under a prefix
    is a task for this prefix.  It holds of the empty table and is kept by
    every step ([thread_step_table_ok]). *)
Definition table_ok st : Prop :=
  forall ps b,
    requests st !! ps = Some b ->
    exists box,
      boxes st !! b = Some box
      /\ forall x p, Value box = once_pending x p -> string_of_list_byte p = ps.

(** Computations that make no call to a collaborator. *)
Definition silent {A} (m : @M W A) : Prop :=
  forall st r st', m st = (r, st') -> trace st' = trace st.



(** [along sched m Q]: [Q] holds of every machine that the schedule goes
    through from [m], [m] and the last one included. *)
Fixpoint along (c : PwnedClient) (sched : list nat) (m : Machine)
    (Q : Machine -> Prop) : Prop :=
  Q m
  /\ match sched with
     | [] => True
     | tid :: sched' =>
         match step dc c tid m with
         | Some m' => along c sched' m' Q
         | None => True
         end
     end.

(** Counting the callers at given program points. *)
Fixpoint count (f : pc -> bool) (ts : list Thread) : nat :=
  match ts with
  | [] => 0
  | t :: ts' => (if f (t_pc t) then 1 else 0) + count f ts'
  end.

Definition is_AtValue (b : nat) (p : pc) : bool :=
  match p with AtValue b' => Nat.eqb b' b | _ => false end.
Definition is_AtRelease (b : nat) (p : pc) : bool :=
  match p with AtRelease b' _ => Nat.eqb b' b | _ => false end.

(** The caller holds box [b] and has not begun to release it. *)
Definition is_joined (b : nat) (p : pc) : bool :=
  is_AtValue b p || is_AtRelease b p.




Section Phases.

(** The client, the prefix that the callers share, the index of the box
    that the first of them creates, and the number of requests sent
    before. *)
Variables (c : @PwnedClient W) (P : list byte) (b0 calls0 : nat).

Let ps : string := string_of_list_byte P.


End Phases.

End Executions.

(** ** More vocabulary *)

Section MoreExecutions.

Context {W : Type}.

(** [Release] called [n] times in a row. *)
Fixpoint Releases (n : nat) (b : nat) : @M W unit :=
  match n with
  | O => ret tt
  | S n' => bind (Release b) (fun _ => Releases n' b)
  end.

(** The caller has not yet had the results of its task. *)
Definition waiting (p : pc) : bool :=
  match p with
  | AtCache | AtDoCheck | AtValue _ => true
  | _ => false
  end.


End MoreExecutions.

(** * The collaborators of the test suite *)

(** The world of the scenarios counts the calls of [Contains]. *)
Definition testHTTPClient (Fn : Request -> option Response * option error)
  : @HTTPClient nat :=
  mkHTTP (fun r w => (Fn r, w)).

Definition testPwnedCache
    (AddFn : list byte -> list (list byte) -> option error)
    (ContainsFn : nat -> list byte -> list byte -> bool * option error)
  : @PwnedCache nat :=
  mkCache (fun _ prefix suffixes w => (AddFn prefix suffixes, w))
          (fun _ prefix suffix w => (ContainsFn w prefix suffix, S w)).

Definition context_Canceled : error := errorString "context canceled".

Definition canceled : @HTTPClient nat :=
  testHTTPClient (fun _ => (None, Some context_Canceled)).

(** [http.DefaultClient] in the scenarios; every client below sets its own
    transport, so that it is never used. *)
Definition offline : @HTTPClient nat :=
  testHTTPClient (fun _ => (None, Some (errorString "no network"))).

Definition ok_response : Response :=
  mkResponse 200 "200 OK"
    (reader (bytes "214943DAAD1D64C102FAEC29DE4AFE9DA3D:1" ++ [CR; LF]) None).

Definition bad_request : Response :=
  mkResponse 400 "400 Bad Request" (reader (bytes "Bad Request" ++ [LF]) None).

Definition responding (res : Response) : @HTTPClient nat :=
  testHTTPClient (fun _ => (Some res, None)).

(** A client that has not been used. *)
Definition fresh : @State nat := mkState 0%nat [] [] ∅ [].

Definition background : option Context := Some context_Background.

Definition password1 : string := "password1".

Definition two_callers : @Machine nat :=
  mkMachine fresh [spawn background password1; spawn background password1].


(** The clients of [TestSingleRequestForSamePrefix],
    [TestErrorUnexpectedResponse], [TestPwnedCache] and
    [TestPwnedCacheWithError]. *)
Definition canceled_client : @PwnedClient nat :=
  mkClient "" None (Some canceled).

Definition bad_request_client : @PwnedClient nat :=
  mkClient "" None (Some (responding bad_request)).

Definition caching_client : @PwnedClient nat :=
  mkClient ""
    (Some (testPwnedCache (fun _ _ => None) (fun _ _ _ => (false, None))))
    (Some (responding ok_response)).

Definition hit_client : @PwnedClient nat :=
  mkClient ""
    (Some (testPwnedCache (fun _ _ => None) (fun _ _ _ => (true, None))))
    (Some (responding ok_response)).

Definition failing_cache : @PwnedCache nat :=
  testPwnedCache (fun _ _ => Some context_Canceled)
    (fun calls _ _ => (false, if (0 <? calls)%nat then Some context_Canceled
                              else None)).

Definition failing_cache_client : @PwnedClient nat :=
  mkClient "" (Some failing_cache) (Some (responding ok_response)).

(** The client of [TestPwnedCacheWithError] after its first call. *)
Definition used : @State nat :=
  snd (Check offline failing_cache_client background password1 fresh).

(** The clients of [TestFailingBodyRead], [TestCheckWithNilContext] and
    [TestUserAgent]. *)
Definition failing_body_client : @PwnedClient nat :=
  mkClient "" None
    (Some (responding (mkResponse 200 "200 OK"
                         (reader [] (Some context_Canceled))))).

Definition ok_client : @PwnedClient nat :=
  mkClient "" None (Some (responding ok_response)).

Definition user_agent_client : @PwnedClient nat :=
  mkClient "test" None (Some canceled).

(** A transport whose body breaks off after a few bytes. *)
Definition broken_body_client : @PwnedClient nat :=
  mkClient "" None
    (Some (responding (mkResponse 200 "200 OK"
                         (reader (bytes "214943DAAD1D64C1")
                            (Some context_Canceled))))).

(** A transport that counts its calls: the body of its first response
    breaks off after a few bytes, the later ones are complete. *)
Definition flaky : @HTTPClient nat :=
  mkHTTP (fun _ calls =>
            (if (calls =? 0)%nat
             then (Some (mkResponse 200 "200 OK"
                           (reader (bytes "214943DAAD1D64C1")
                              (Some context_Canceled))), None)
             else (Some ok_response, None),
             S calls)).

Definition flaky_client : @PwnedClient nat := mkClient "" None (Some flaky).

(** A client with one task in its table, held by two callers, and a
    client with one box that nobody holds yet. *)
Definition held_box (n : Z) : refcountBox :=
  mkBox n (Some "E38AD"%string)
    (once_pending context_Background (bytes "E38AD")) [].

Definition holding_task (n : Z) : @State nat :=
  mkState 0%nat [] [] {[ "E38AD"%string := 0%nat ]} [held_box n].

(** * Properties *)

(** ** Bytes *)

Lemma byte_val_inj a b : byte_val a = byte_val b -> a = b.
Proof.
  unfold byte_val. intros H. apply N2Z.inj in H.
  pose proof (Byte.of_to_N a) as Ha. pose proof (Byte.of_to_N b) as Hb.
  rewrite H in Ha. congruence.
Qed.

Lemma Byte_eqb_spec a b : Byte.eqb a b = true <-> a = b.
Proof.
  split; [apply Byte.byte_dec_bl | apply Byte.byte_dec_lb].
Qed.

Lemma Byte_eqb_refl a : Byte.eqb a a = true.
Proof. now apply Byte_eqb_spec. Qed.

Lemma bytes_Equal_spec a b : bytes_Equal a b = true <-> a = b.
Proof.
  revert b. induction a as [|x a IH]; intros [|y b]; simpl; try easy.
  rewrite andb_true_iff, Byte_eqb_spec, IH. split.
  - intros [-> ->]. reflexivity.
  - intros [= -> ->]. easy.
Qed.

Lemma bytes_Compare_range a b :
  bytes_Compare a b = -1 \/ bytes_Compare a b = 0 \/ bytes_Compare a b = 1.
Proof.
  revert b. induction a as [|x a IH]; intros [|y b]; simpl; auto.
  destruct (byte_val x <? byte_val y); auto.
  destruct (byte_val y <? byte_val x); auto.
Qed.

Lemma bytes_Compare_eq a b : bytes_Compare a b = 0 <-> a = b.
Proof.
  revert b. induction a as [|x a IH]; intros [|y b]; simpl; try easy.
  destruct (Z.ltb_spec (byte_val x) (byte_val y)) as [Hlt|Hge].
  - split; [discriminate|]. intros [= -> _]. lia.
  - destruct (Z.ltb_spec (byte_val y) (byte_val x)) as [Hlt'|Hge'].
    + split; [discriminate|]. intros [= -> _]. lia.
    + rewrite IH. assert (x = y) as -> by (apply byte_val_inj; lia).
      split; [intros ->; reflexivity | intros [= ->]; reflexivity].
Qed.

Lemma bytes_Compare_antisym a b : bytes_Compare b a = - bytes_Compare a b.
Proof.
  revert b. induction a as [|x a IH]; intros [|y b]; simpl; try easy.
  destruct (Z.ltb_spec (byte_val x) (byte_val y));
    destruct (Z.ltb_spec (byte_val y) (byte_val x)); try lia.
  apply IH.
Qed.

Lemma bytes_Compare_trans a b c :
  bytes_Compare a b < 0 -> bytes_Compare b c < 0 -> bytes_Compare a c < 0.
Proof.
  revert b c. induction a as [|x a IH]; intros [|y b] [|z c]; simpl; try lia.
  destruct (Z.ltb_spec (byte_val x) (byte_val y));
    destruct (Z.ltb_spec (byte_val y) (byte_val z));
    destruct (Z.ltb_spec (byte_val x) (byte_val z)); try lia;
    destruct (Z.ltb_spec (byte_val y) (byte_val x));
    destruct (Z.ltb_spec (byte_val z) (byte_val y));
    destruct (Z.ltb_spec (byte_val z) (byte_val x)); try lia.
  apply IH.
Qed.

Lemma blt_irrefl a : ~ blt a a.
Proof.
  unfold blt. assert (bytes_Compare a a = 0) by now apply bytes_Compare_eq.
  lia.
Qed.

Lemma blt_trans a b c : blt a b -> blt b c -> blt a c.
Proof. apply bytes_Compare_trans. Qed.

Lemma scan_spec l s : scan l s = true <-> In s l.
Proof.
  induction l as [|x l IH]; simpl; [easy|].
  destruct (bytes_Equal x s) eqn:E.
  - apply bytes_Equal_spec in E. subst. tauto.
  - rewrite IH. split; [tauto|]. intros [->|H]; [|exact H].
    assert (bytes_Equal s s = true) by now apply bytes_Equal_spec.
    congruence.
Qed.

(** ** Binary search *)

Lemma midpoint i j :
  0 <= i -> i < j -> j < 2 ^ 63 ->
  let h := Z.shiftr ((i + j) mod 2 ^ 64) 1 in i <= h < j.
Proof.
  intros Hi Hij Hj. cbv zeta.
  assert (2 ^ 64 = 2 * 2 ^ 63) as E by reflexivity.
  rewrite Z.mod_small by lia.
  rewrite Z.shiftr_div_pow2 by lia. change (2 ^ 1) with 2.
  split.
  - apply Z.div_le_lower_bound; lia.
  - apply Z.div_lt_upper_bound; lia.
Qed.

(** The loop of [sort.Search] does not look at [f] outside [i, j). *)
Lemma Search_loop_ext fuel f g i j :
  0 <= i -> j < 2 ^ 63 ->
  (forall k, i <= k < j -> f k = g k) ->
  Search_loop fuel f i j = Search_loop fuel g i j.
Proof.
  revert i j. induction fuel as [|fuel IH]; intros i j Hi Hj Hfg; simpl.
  - reflexivity.
  - destruct (Z.ltb_spec i j) as [Hlt|]; [|reflexivity].
    pose proof (midpoint i j Hi Hlt Hj) as Hh. cbv zeta in Hh.
    rewrite <- (Hfg _ Hh).
    destruct (f _); simpl; apply IH; try lia; intros k Hk; apply Hfg; lia.
Qed.

(** [sort.Search] does not look at [f] outside [0, n): the indexing
    [buf.Suffixes[i]] in the closure of [Lookup] is always in range. *)
Lemma sort_Search_ext n f g :
  n < 2 ^ 63 ->
  (forall k, 0 <= k < n -> f k = g k) ->
  sort_Search n f = sort_Search n g.
Proof.
  intros Hn Hfg. unfold sort_Search. apply Search_loop_ext; [lia|lia|exact Hfg].
Qed.

(** With enough fuel the loop has run to its end: more fuel changes
    nothing. *)
Lemma Search_loop_fuel fuel fuel' f i j :
  0 <= i -> j < 2 ^ 63 ->
  j - i <= Z.of_nat fuel -> j - i <= Z.of_nat fuel' ->
  Search_loop fuel f i j = Search_loop fuel' f i j.
Proof.
  revert fuel' i j.
  induction fuel as [|fuel IH]; intros fuel' i j Hi Hj Hf Hf'.
  - destruct fuel' as [|fuel']; simpl; [reflexivity|].
    destruct (Z.ltb_spec i j); [lia | reflexivity].
  - destruct fuel' as [|fuel']; simpl.
    + destruct (Z.ltb_spec i j); [lia | reflexivity].
    + destruct (Z.ltb_spec i j) as [Hlt|]; [|reflexivity].
      pose proof (midpoint i j Hi Hlt Hj) as Hh. cbv zeta in Hh.
      destruct (f _); simpl; apply IH; lia.
Qed.

(** What the loop computes on a predicate that is false up to some point
    and true from there on. *)
Lemma Search_loop_spec fuel f n i j :
  0 <= i -> i <= j -> j <= n -> n < 2 ^ 63 ->
  j - i <= Z.of_nat fuel ->
  (forall a b, 0 <= a -> a <= b -> b < n -> f a = true -> f b = true) ->
  (forall k, 0 <= k < i -> f k = false) ->
  (forall k, j <= k < n -> f k = true) ->
  let r := Search_loop fuel f i j in
  i <= r <= j /\
  (forall k, 0 <= k < r -> f k = false) /\
  (forall k, r <= k < n -> f k = true).
Proof.
  revert i j.
  induction fuel as [|fuel IH]; intros i j Hi Hij Hjn Hn Hf Hmono Hlo Hhi;
    cbv zeta; simpl.
  - assert (i = j) as -> by lia. auto with zarith.
  - destruct (Z.ltb_spec i j) as [Hlt|Hge].
    2:{ assert (i = j) as -> by lia. auto with zarith. }
    pose proof (midpoint i j Hi Hlt ltac:(lia)) as Hh. cbv zeta in Hh.
    set (h := Z.shiftr ((i + j) mod 2 ^ 64) 1) in *.
    destruct (f h) eqn:Efh; simpl.
    + specialize (IH i h ltac:(lia) ltac:(lia) ltac:(lia) Hn ltac:(lia)
                    Hmono Hlo).
      cbv zeta in IH. destruct IH as (Hr & Hfalse & Htrue).
      { intros k Hk. apply (Hmono h k); try lia. exact Efh. }
      split; [lia|]. split; assumption.
    + specialize (IH (h + 1) j ltac:(lia) ltac:(lia) ltac:(lia) Hn ltac:(lia)
                    Hmono).
      cbv zeta in IH. destruct IH as (Hr & Hfalse & Htrue).
      { intros k Hk. destruct (f k) eqn:Efk; [|reflexivity].
        assert (f h = true) by (apply (Hmono k h); try lia; exact Efk).
        congruence. }
      { exact Hhi. }
      split; [lia|]. split; assumption.
Qed.

(** ** Lookup *)

Lemma ascending_nth l a b :
  ascending l -> (a < b)%nat -> (b < length l)%nat ->
  blt (nth a l []) (nth b l []).
Proof.
  intros Hs. revert a b. induction Hs as [|x l Hs IH Hall]; intros a b Hab Hb.
  - simpl in Hb. lia.
  - destruct b as [|b]; [lia|]. simpl in Hb.
    destruct a as [|a]; simpl.
    + rewrite List.Forall_forall in Hall. apply Hall. apply nth_In. lia.
    + apply IH; lia.
Qed.

Lemma ascending_snoc l x :
  ascending l ->
  match last l with Some prev => blt prev x | None => True end ->
  ascending (l ++ [x]).
Proof.
  intros Hs. induction Hs as [|y l Hs IH Hall]; intros Hlast; simpl.
  - repeat constructor.
  - constructor.
    + apply IH. destruct l as [|z l]; [exact I|]. exact Hlast.
    + apply List.Forall_app. split; [exact Hall|]. constructor; [|constructor].
      destruct l as [|z l].
      * exact Hlast.
      * assert (blt y (List.last (z :: l) [])) as Hy.
        { rewrite List.Forall_forall in Hall. apply Hall.
          destruct (exists_last (l:=z :: l) ltac:(discriminate))
            as (l' & w & E).
          rewrite E, last_last. apply in_or_app. right. now left. }
        assert (last (z :: l) = Some (List.last (z :: l) [])) as E.
        { clear. generalize z. induction l as [|a l IH]; intros z'.
          - reflexivity.
          - change (last (z' :: a :: l)) with (last (a :: l)).
            change (List.last (z' :: a :: l) []) with (List.last (a :: l) []).
            apply IH. }
        rewrite last_cons in Hlast. rewrite E in Hlast.
        eapply blt_trans; eassumption.
Qed.

Lemma In_nth_Z (l : list (list byte)) s :
  In s l <-> exists k, 0 <= k < Z.of_nat (length l) /\ index_at l k = s.
Proof.
  unfold index_at. split.
  - intros H. destruct (In_nth l s [] H) as (n & Hn & E).
    exists (Z.of_nat n). rewrite Nat2Z.id. split; [lia | exact E].
  - intros (k & Hk & <-). apply nth_In. lia.
Qed.

(** [Lookup] decides membership in the parsed suffixes, on both paths,
    provided the flag is only set on ascending suffixes. *)
Lemma Lookup_spec buf s :
  (SuffixesSorted buf = true -> ascending (Suffixes buf)) ->
  Z.of_nat (length (Suffixes buf)) < 2 ^ 63 ->
  Lookup buf s = true <-> In s (Suffixes buf).
Proof.
  intros Hsorted Hlen. unfold Lookup.
  destruct (SuffixesSorted buf); simpl; [|apply scan_spec].
  specialize (Hsorted eq_refl).
  set (l := Suffixes buf) in *. set (n := Z.of_nat (length l)) in *.
  set (f := fun i => 0 <=? bytes_Compare (index_at l i) s).
  assert (forall a b, 0 <= a -> a < b -> b < n ->
                      blt (index_at l a) (index_at l b)) as Hord.
  { intros a b Ha Hab Hb. unfold index_at.
    apply ascending_nth; [exact Hsorted | lia | lia]. }
  assert (forall a b, 0 <= a -> a <= b -> b < n -> f a = true -> f b = true)
    as Hmono.
  { intros a b Ha Hab Hb. unfold f. intros Hfa.
    destruct (Z.eq_dec a b) as [->|Hne]; [exact Hfa|].
    apply Z.leb_le in Hfa. apply Z.leb_le.
    specialize (Hord a b Ha ltac:(lia) Hb). unfold blt in Hord.
    destruct (Z_lt_le_dec (bytes_Compare (index_at l b) s) 0) as [Hlt|]; [|lia].
    pose proof (bytes_Compare_trans _ _ _ Hord Hlt). lia. }
  pose proof (Search_loop_spec (Z.to_nat n) f n 0 n ltac:(lia) ltac:(lia)
                ltac:(lia) Hlen ltac:(lia) Hmono ltac:(intros; lia)
                ltac:(intros; lia)) as Hspec.
  cbv zeta in Hspec. fold (sort_Search n f) in Hspec.
  set (r := sort_Search n f) in *. destruct Hspec as (Hr & Hfalse & Htrue).
  destruct (Z.ltb_spec r n) as [Hrn|Hrn].
  - rewrite bytes_Equal_spec. split.
    + intros E. rewrite E. apply In_nth_Z. exists r.
      split; [lia | reflexivity].
    + intros Hin. apply In_nth_Z in Hin. destruct Hin as (k & Hk & E).
      assert (f k = true) as Hfk.
      { unfold f. rewrite E. apply Z.leb_le.
        assert (bytes_Compare s s = 0) by now apply bytes_Compare_eq. lia. }
      assert (r <= k) as Hrk.
      { destruct (Z_lt_le_dec k r) as [Hlt|]; [|lia].
        rewrite Hfalse in Hfk by lia. discriminate. }
      destruct (Z.eq_dec r k) as [->|Hne]; [now symmetry|].
      exfalso. specialize (Hord r k ltac:(lia) ltac:(lia) ltac:(lia)).
      rewrite E in Hord. unfold blt in Hord.
      specialize (Htrue r ltac:(lia)). unfold f in Htrue.
      apply Z.leb_le in Htrue. lia.
  - split; [discriminate|]. intros Hin. apply In_nth_Z in Hin.
    destruct Hin as (k & Hk & E). exfalso.
    assert (f k = true) as Hfk.
    { unfold f. rewrite E. apply Z.leb_le.
      assert (bytes_Compare s s = 0) by now apply bytes_Compare_eq. lia. }
    rewrite Hfalse in Hfk by lia. discriminate.
Qed.

(** ** Parse *)

Lemma ReadBytes_lines b line rest eof :
  ReadBytes LF b = (line, rest, eof) ->
  lines_of b = if eof then [line] else line :: lines_of rest.
Proof.
  revert line rest eof.
  induction b as [|x b IH]; intros line rest eof; simpl.
  - intros [= <- <- <-]. reflexivity.
  - destruct (Byte.eqb x LF).
    + intros [= <- <- <-]. reflexivity.
    + destruct (ReadBytes LF b) as [[l r] e].
      intros [= <- <- <-]. rewrite (IH l r e eq_refl).
      destruct e; reflexivity.
Qed.

Lemma view_Parse_line line b :
  view (Parse_line line b) = line_step (view b) line.
Proof.
  unfold line_step, Parse_line, view.
  destruct (pwnedLinePattern_FindSubmatch line) as [[s o]|]; reflexivity.
Qed.

(** The loop of [Parse] processes the lines of the raw buffer in order. *)
Lemma view_Parse_loop buf :
  view (Parse_loop buf) = fold_left line_step (lines_of (Buffer buf)) (view buf).
Proof.
  apply (Parse_loop_elim
           (fun buf res =>
              view res = fold_left line_step (lines_of (Buffer buf)) (view buf))).
  - intros b line rest e _. rewrite (ReadBytes_lines _ _ _ _ e). simpl.
    rewrite view_Parse_line. reflexivity.
  - intros b line rest e IH _. rewrite (ReadBytes_lines _ _ _ _ e). simpl.
    rewrite IH, view_Parse_line.
    assert (Buffer (Parse_line line (mkBuffer rest (SuffixesSorted b) (Suffixes b)))
            = rest) as ->.
    { unfold Parse_line.
      destruct (pwnedLinePattern_FindSubmatch line) as [[s o]|]; reflexivity. }
    reflexivity.
Qed.

Lemma view_Parse buf :
  view (Parse buf) = fold_left line_step (lines_of (Buffer buf)) (true, Suffixes buf).
Proof.
  unfold Parse. cbv zeta.
  change (view (mkBuffer [] ?a ?b)) with (a, b).
  pose proof (view_Parse_loop (mkBuffer (Buffer buf) true (Suffixes buf))) as H.
  unfold view in H at 1. exact H.
Qed.

Lemma Buffer_Parse buf : Buffer (Parse buf) = [].
Proof. reflexivity. Qed.

Lemma line_step_snd v line : snd (line_step v line) = snd v ++ retained_suffix line.
Proof.
  unfold line_step, Parse_line, retained_suffix, view.
  destruct (pwnedLinePattern_FindSubmatch line) as [[s o]|]; simpl.
  - destruct (kept o); simpl; [reflexivity | now rewrite app_nil_r].
  - now rewrite app_nil_r.
Qed.

Lemma fold_line_step_snd ls v :
  snd (fold_left line_step ls v) = snd v ++ retained ls.
Proof.
  revert v. induction ls as [|line ls IH]; intros v; simpl.
  - now rewrite app_nil_r.
  - rewrite IH, line_step_snd. unfold retained. now rewrite <- app_assoc.
Qed.

(** The suffixes after [Parse]: those already there, then those of the
    lines of the body that match with a count that passes the test. *)
Lemma Suffixes_Parse buf :
  Suffixes (Parse buf) = Suffixes buf ++ retained (lines_of (Buffer buf)).
Proof.
  change (Suffixes (Parse buf)) with (snd (view (Parse buf))).
  rewrite view_Parse, fold_line_step_snd. reflexivity.
Qed.

Lemma line_step_fst v line :
  fst (line_step v line) =
  match pwnedLinePattern_FindSubmatch line, last (snd v) with
  | Some (suffix, _), Some prev =>
      fst v && negb (0 <=? bytes_Compare prev suffix)
  | _, _ => fst v
  end.
Proof.
  unfold line_step, Parse_line, view, last_suffix. destruct v as [f l].
  destruct (pwnedLinePattern_FindSubmatch line) as [[s o]|]; simpl;
    [|now destruct (last l)].
  destruct f; simpl; [|now destruct (last l)].
  destruct l as [|x l]; [reflexivity|].
  destruct (0 <? Z.of_nat (length (x :: l))) eqn:E.
  - destruct (last (x :: l)); [|reflexivity].
    now destruct (0 <=? bytes_Compare l0 s).
  - apply Z.ltb_ge in E. simpl length in E. lia.
Qed.

(** The flag is only left on ascending suffixes. *)
Lemma line_step_ascending v line :
  (fst v = true -> ascending (snd v)) ->
  fst (line_step v line) = true -> ascending (snd (line_step v line)).
Proof.
  intros Hv. rewrite line_step_fst, line_step_snd. unfold retained_suffix.
  destruct (pwnedLinePattern_FindSubmatch line) as [[s o]|].
  2:{ rewrite app_nil_r. destruct (last (snd v)); exact Hv. }
  destruct (kept o).
  2:{ rewrite app_nil_r. destruct (last (snd v)); [|exact Hv].
      intros H. apply andb_true_iff in H. tauto. }
  destruct (last (snd v)) as [prev|] eqn:El.
  - intros H. apply andb_true_iff in H. destruct H as [Hf Hc].
    apply ascending_snoc; [auto|]. rewrite El.
    apply negb_true_iff, Z.leb_gt in Hc. exact Hc.
  - intros Hf. apply ascending_snoc; [auto|]. now rewrite El.
Qed.

Lemma fold_line_step_ascending ls v :
  (fst v = true -> ascending (snd v)) ->
  fst (fold_left line_step ls v) = true ->
  ascending (snd (fold_left line_step ls v)).
Proof.
  revert v. induction ls as [|line ls IH]; intros v Hv; simpl.
  - exact Hv.
  - apply IH. now apply line_step_ascending.
Qed.

(** Soundness of the flag: when [Parse] leaves it on, the suffixes are in
    strictly ascending order. *)
Lemma SuffixesSorted_Parse_sound buf :
  ascending (Suffixes buf) ->
  SuffixesSorted (Parse buf) = true -> ascending (Suffixes (Parse buf)).
Proof.
  intros H0.
  change (SuffixesSorted (Parse buf)) with (fst (view (Parse buf))).
  change (Suffixes (Parse buf)) with (snd (view (Parse buf))).
  rewrite view_Parse. apply fold_line_step_ascending. intros _. exact H0.
Qed.

Lemma concat_lines_of b : concat (lines_of b) = b.
Proof.
  induction b as [|x b IH]; simpl; [reflexivity|].
  destruct (Byte.eqb x LF); simpl; [now rewrite IH|].
  destruct (lines_of b) as [|l ls]; simpl in *; [now subst | now rewrite IH].
Qed.

Lemma FindSubmatch_length line s o :
  pwnedLinePattern_FindSubmatch line = Some (s, o) -> (0 < length line)%nat.
Proof.
  unfold pwnedLinePattern_FindSubmatch. destruct line as [|x line]; simpl.
  - discriminate.
  - intros _. lia.
Qed.

Lemma retained_length ls : (length (retained ls) <= length (concat ls))%nat.
Proof.
  induction ls as [|line ls IH]; simpl; [lia|].
  unfold retained in *. rewrite !length_app.
  enough (length (retained_suffix line) <= length line)%nat by lia.
  unfold retained_suffix.
  destruct (pwnedLinePattern_FindSubmatch line) as [[s o]|] eqn:E; simpl; [|lia].
  apply FindSubmatch_length in E. destruct (kept o); simpl; lia.
Qed.

(** [Parse] keeps at most one suffix per byte of the body, so the number of
    suffixes of a body that fits in a slice fits in an [int]. *)
Lemma Suffixes_Parse_length buf :
  (length (Suffixes (Parse buf))
   <= length (Suffixes buf) + length (Buffer buf))%nat.
Proof.
  rewrite Suffixes_Parse, length_app.
  pose proof (retained_length (lines_of (Buffer buf))) as H.
  rewrite concat_lines_of in H. lia.
Qed.

(** [Lookup] after [Parse], on a buffer that held no suffixes: membership
    in the retained suffixes of the body, whatever the flag. *)
Lemma Lookup_Parse buf s :
  Suffixes buf = [] ->
  Z.of_nat (length (Buffer buf)) < 2 ^ 63 ->
  Lookup (Parse buf) s = true <-> In s (retained (lines_of (Buffer buf))).
Proof.
  intros H0 Hlen. rewrite Lookup_spec.
  - rewrite Suffixes_Parse, H0. reflexivity.
  - apply SuffixesSorted_Parse_sound. rewrite H0. constructor.
  - pose proof (Suffixes_Parse_length buf) as H. rewrite H0 in H.
    change (length (@nil (list byte))) with 0%nat in H. lia.
Qed.

Lemma In_retained s ls :
  In s (retained ls) <->
  exists line o, In line ls
                 /\ pwnedLinePattern_FindSubmatch line = Some (s, o)
                 /\ kept o = true.
Proof.
  unfold retained. rewrite in_flat_map. split.
  - intros (line & Hin & Hs). exists line. unfold retained_suffix in Hs.
    destruct (pwnedLinePattern_FindSubmatch line) as [[s' o]|]; [|easy].
    destruct (kept o) eqn:E; [|easy]. destruct Hs as [->|[]]. eauto.
  - intros (line & o & Hin & Hm & Hk). exists line. split; [exact Hin|].
    unfold retained_suffix. rewrite Hm, Hk. now left.
Qed.

(** Completeness of the flag on ascending input: when the suffixes of all
    the matching lines, padding included, are in strictly ascending order,
    the flag stays on. *)
Lemma fold_line_step_flag ls l :
  ascending (matched ls) ->
  (forall x y, In x l -> In y (matched ls) -> blt x y) ->
  fst (fold_left line_step ls (true, l)) = true.
Proof.
  revert l. induction ls as [|line ls IH]; intros l Hasc Hlt; simpl.
  - reflexivity.
  - unfold matched in *. simpl in Hasc, Hlt.
    assert (exists l', line_step (true, l) line = (true, l')
                       /\ forall x, In x l' -> In x l \/ In x (matched_suffix line))
      as (l' & -> & Hl').
    { exists (snd (line_step (true, l) line)). split.
      - rewrite (surjective_pairing (line_step (true, l) line)). f_equal.
        rewrite line_step_fst. simpl. unfold matched_suffix in Hlt.
        destruct (pwnedLinePattern_FindSubmatch line) as [[s o]|]; [|reflexivity].
        destruct (last l) as [prev|] eqn:El; [|reflexivity].
        assert (blt prev s) as Hb.
        { apply Hlt; [|now left]. apply last_Some in El.
          destruct El as (l0 & ->). apply in_or_app. right. now left. }
        unfold blt in Hb. apply negb_true_iff, Z.leb_gt. exact Hb.
      - intros x. rewrite line_step_snd. simpl. intros Hx.
        apply in_app_or in Hx. destruct Hx as [Hx|Hx]; [now left|right].
        unfold retained_suffix in Hx. unfold matched_suffix.
        destruct (pwnedLinePattern_FindSubmatch line) as [[s o]|]; [|easy].
        destruct (kept o); [exact Hx | easy]. }
    apply IH.
    + change (ascending (matched_suffix line ++ flat_map matched_suffix ls)) in Hasc.
      unfold ascending in *. clear -Hasc.
      induction (matched_suffix line) as [|a m IHm]; [exact Hasc|].
      apply IHm. now inversion Hasc.
    + intros x y Hx Hy. destruct (Hl' x Hx) as [Hxl|Hxm].
      * apply Hlt; [exact Hxl|]. apply in_or_app. now right.
      * clear -Hasc Hxm Hy. unfold ascending in Hasc.
        induction (matched_suffix line) as [|a m IHm]; [easy|].
        simpl in Hasc. inversion Hasc as [|? ? Hs Hall]; subst.
        destruct Hxm as [->|Hxm].
        -- rewrite List.Forall_forall in Hall. apply Hall.
           apply in_or_app. now right.
        -- now apply IHm.
Qed.

Lemma SuffixesSorted_Parse_complete buf :
  Suffixes buf = [] ->
  ascending (matched (lines_of (Buffer buf))) ->
  SuffixesSorted (Parse buf) = true.
Proof.
  intros H0 Hasc.
  change (SuffixesSorted (Parse buf)) with (fst (view (Parse buf))).
  rewrite view_Parse, H0. apply fold_line_step_flag; [exact Hasc|].
  intros x y [].
Qed.

(** ** The line pattern *)

Lemma is_space_not_digit b : is_space b = true -> is_digit b = false.
Proof.
  unfold is_space, is_digit. rewrite !orb_true_iff, !Z.eqb_eq.
  intros H. apply andb_false_iff. rewrite Z.leb_gt. lia.
Qed.

Lemma span_app p d w :
  forallb p d = true ->
  match w with [] => True | b :: _ => p b = false end ->
  span p (d ++ w) = (d, w).
Proof.
  intros Hd Hw. induction d as [|x d IH]; simpl in *.
  - destruct w as [|b w]; [reflexivity|]. simpl. now rewrite Hw.
  - apply andb_true_iff in Hd. destruct Hd as [Hx Hd].
    rewrite Hx, (IH Hd). reflexivity.
Qed.

Lemma span_spec p l u v :
  span p l = (u, v) ->
  l = u ++ v /\ forallb p u = true
  /\ match v with [] => True | b :: _ => p b = false end.
Proof.
  revert u v. induction l as [|x l IH]; intros u v; simpl.
  - intros [= <- <-]. auto.
  - destruct (p x) eqn:Ex.
    + destruct (span p l) as [u' v']. intros [= <- <-].
      destruct (IH u' v' eq_refl) as (-> & Hu & Hv). simpl. rewrite Ex. auto.
    + intros [= <- <-]. simpl. auto.
Qed.

(** A line matches the pattern exactly when it is 35 uppercase
    hexadecimal characters, a colon, at least one digit and white space up
    to its end; the groups are then the 35 characters and the digits. *)
Lemma FindSubmatch_intro s d w :
  length s = 35%nat -> forallb is_upper_hex s = true ->
  d <> [] -> forallb is_digit d = true -> forallb is_space w = true ->
  pwnedLinePattern_FindSubmatch (s ++ COLON :: d ++ w) = Some (s, d).
Proof.
  intros Hs Hhex Hd Hdig Hw. unfold pwnedLinePattern_FindSubmatch.
  rewrite firstn_app, <- Hs, firstn_all, Nat.sub_diag. simpl firstn.
  rewrite app_nil_r, Hs. simpl Nat.eqb. rewrite Hhex. simpl andb.
  rewrite <- Hs, skipn_app, skipn_all, Nat.sub_diag. simpl.
  rewrite span_app; [|exact Hdig|].
  - destruct d; [congruence|]. now rewrite Hw.
  - destruct w as [|b w]; [exact I|]. simpl in Hw.
    apply andb_true_iff in Hw. now apply is_space_not_digit.
Qed.

Lemma FindSubmatch_elim line s d :
  pwnedLinePattern_FindSubmatch line = Some (s, d) ->
  exists w, line = s ++ COLON :: d ++ w
            /\ length s = 35%nat /\ forallb is_upper_hex s = true
            /\ d <> [] /\ forallb is_digit d = true
            /\ forallb is_space w = true.
Proof.
  unfold pwnedLinePattern_FindSubmatch. intros H.
  destruct (length (firstn 35 line) =? 35)%nat eqn:El; [|discriminate].
  destruct (forallb is_upper_hex (firstn 35 line)) eqn:Eh; [|discriminate].
  simpl in H. destruct (skipn 35 line) as [|c rest] eqn:Es; [discriminate|].
  destruct (Byte.eqb c COLON) eqn:Ec; [|discriminate].
  apply Byte_eqb_spec in Ec. subst c.
  destruct (span is_digit rest) as [occ tail] eqn:Esp.
  destruct occ as [|o occ]; [discriminate|].
  destruct (forallb is_space tail) eqn:Et; [|discriminate].
  injection H as <- <-. apply span_spec in Esp.
  destruct Esp as (-> & Hdig & _). exists tail.
  apply Nat.eqb_eq in El. repeat split; try assumption; try discriminate.
  rewrite <- (firstn_skipn 35 line) at 1. now rewrite Es.
Qed.

(** ** Bodies of well-formed lines *)

Lemma lines_of_no_LF u : no_LF u -> lines_of u = [u].
Proof.
  unfold no_LF. induction u as [|x u IH]; simpl; [reflexivity|].
  intros H. apply andb_true_iff in H. destruct H as [Hx Hu].
  apply negb_true_iff in Hx. rewrite Hx, (IH Hu). reflexivity.
Qed.

Lemma lines_of_line u rest :
  no_LF u -> lines_of (u ++ LF :: rest) = (u ++ [LF]) :: lines_of rest.
Proof.
  unfold no_LF. induction u as [|x u IH]; simpl; [reflexivity|].
  intros H. apply andb_true_iff in H. destruct H as [Hx Hu].
  apply negb_true_iff in Hx. rewrite Hx, (IH Hu). reflexivity.
Qed.

Lemma forallb_impl_bool {A} (p q : A -> bool) l :
  (forall x, p x = true -> q x = true) ->
  forallb p l = true -> forallb q l = true.
Proof.
  intros Hpq. rewrite !forallb_forall. auto.
Qed.

Lemma well_formed_spec l :
  well_formed l = true ->
  length (line_suffix l) = 35%nat
  /\ forallb is_upper_hex (line_suffix l) = true
  /\ line_count l <> []
  /\ forallb is_digit (line_count l) = true
  /\ forallb is_space (line_space l) = true
  /\ no_LF (render_unterminated l).
Proof.
  unfold well_formed. rewrite !andb_true_iff.
  intros ((((Hlen & Hhex) & Hne) & Hdig) & Hsp).
  apply Nat.eqb_eq in Hlen. apply negb_true_iff, Nat.eqb_neq in Hne.
  repeat split; try assumption.
  - intros E. rewrite E in Hne. simpl in Hne. lia.
  - revert Hsp. apply forallb_impl_bool. intros x Hx.
    apply andb_true_iff in Hx. tauto.
  - unfold no_LF, render_unterminated.
    rewrite forallb_app. simpl. rewrite forallb_app.
    rewrite !andb_true_iff. repeat split.
    + revert Hhex. apply forallb_impl_bool. intros x.
      destruct x; vm_compute; congruence.
    + revert Hdig. apply forallb_impl_bool. intros x.
      destruct x; vm_compute; congruence.
    + revert Hsp. apply forallb_impl_bool. intros x Hx.
      apply andb_true_iff in Hx. tauto.
Qed.

Lemma FindSubmatch_render_unterminated l :
  well_formed l = true ->
  pwnedLinePattern_FindSubmatch (render_unterminated l)
  = Some (line_suffix l, line_count l).
Proof.
  intros H. apply well_formed_spec in H.
  destruct H as (Hlen & Hhex & Hne & Hdig & Hsp & _).
  now apply FindSubmatch_intro.
Qed.

Lemma FindSubmatch_render l :
  well_formed l = true ->
  pwnedLinePattern_FindSubmatch (render l)
  = Some (line_suffix l, line_count l).
Proof.
  intros H. apply well_formed_spec in H.
  destruct H as (Hlen & Hhex & Hne & Hdig & Hsp & _).
  unfold render, render_unterminated. rewrite <- app_assoc. simpl.
  rewrite <- app_assoc. apply FindSubmatch_intro; try assumption.
  rewrite forallb_app, Hsp. reflexivity.
Qed.

(** The lines [Parse] reads from a body of well-formed lines are these
    lines, then the unterminated last one (or the empty slice). *)
Lemma lines_of_body ls final :
  forallb well_formed (all_lines ls final) = true ->
  lines_of (body_of ls final)
  = map render ls
    ++ [match final with Some l => render_unterminated l | None => [] end].
Proof.
  unfold body_of, all_lines. rewrite forallb_app, andb_true_iff.
  intros [Hls Hfinal]. induction ls as [|l ls IH]; simpl.
  - apply lines_of_no_LF. destruct final as [l|]; [|reflexivity].
    simpl in Hfinal. rewrite andb_true_r in Hfinal.
    now apply well_formed_spec in Hfinal.
  - simpl in Hls. apply andb_true_iff in Hls. destruct Hls as [Hl Hls].
    unfold render at 1. rewrite <- !app_assoc. simpl.
    rewrite lines_of_line by now apply well_formed_spec in Hl.
    rewrite (IH Hls). reflexivity.
Qed.

Lemma retained_body ls final :
  forallb well_formed (all_lines ls final) = true ->
  retained (lines_of (body_of ls final))
  = flat_map (fun l => if kept (line_count l) then [line_suffix l] else [])
      (all_lines ls final).
Proof.
  intros Hwf. rewrite (lines_of_body _ _ Hwf). unfold retained, all_lines.
  unfold all_lines in Hwf. rewrite forallb_app, andb_true_iff in Hwf.
  destruct Hwf as [Hls Hfinal]. rewrite !flat_map_app. f_equal.
  - induction ls as [|l ls IH]; simpl; [reflexivity|].
    simpl in Hls. apply andb_true_iff in Hls. destruct Hls as [Hl Hls].
    rewrite (IH Hls). f_equal. unfold retained_suffix.
    now rewrite FindSubmatch_render.
  - destruct final as [l|]; simpl; [|reflexivity].
    simpl in Hfinal. rewrite andb_true_r in Hfinal.
    unfold retained_suffix. now rewrite FindSubmatch_render_unterminated.
Qed.

(** A count of digits that denotes a number other than zero passes the
    test of [Parse]. *)
Lemma kept_nonzero count :
  count <> [] -> decimal count <> 0 -> kept count = true.
Proof.
  unfold kept, decimal. destruct count as [|c count]; [congruence|].
  intros _. destruct count as [|c' count]; simpl.
  - intros H. apply negb_true_iff. destruct (Byte.eqb c ZERO) eqn:E; [|reflexivity].
    apply Byte_eqb_spec in E. subst c. now vm_compute in H.
  - intros _. apply orb_true_iff. left. apply Z.ltb_lt. lia.
Qed.

(** ** The response buffer: parsing followed by lookup *)

(** C1.  For a body made of well-formed lines, held by a buffer without
    suffixes (as [doCheck] and the tests build it) and of a length that
    fits in a slice: after [Parse], [Lookup] returns true for every
    suffix of a line whose count denotes a number other than zero, and
    false for every suffix that is the suffix of no line of the body. *)
Theorem Parse_Lookup_well_formed ls final buf s :
  forallb well_formed (all_lines ls final) = true ->
  Buffer buf = body_of ls final ->
  Suffixes buf = [] ->
  Z.of_nat (length (Buffer buf)) < 2 ^ 63 ->
  ((exists l, In l (all_lines ls final) /\ line_suffix l = s
              /\ decimal (line_count l) <> 0) ->
   Lookup (Parse buf) s = true)
  /\ ((forall l, In l (all_lines ls final) -> line_suffix l <> s) ->
      Lookup (Parse buf) s = false).
Proof.
  intros Hwf Hbody H0 Hlen.
  pose proof (Lookup_Parse buf s H0 Hlen) as HL.
  rewrite Hbody, (retained_body _ _ Hwf), in_flat_map in HL. split.
  - intros (l & Hin & Hs & Hd). apply HL. exists l. split; [exact Hin|].
    rewrite forallb_forall in Hwf. specialize (Hwf l Hin).
    apply well_formed_spec in Hwf. destruct Hwf as (_ & _ & Hne & _).
    rewrite (kept_nonzero _ Hne Hd). now left.
  - intros Hnot. destruct (Lookup (Parse buf) s) eqn:E; [|reflexivity].
    exfalso. destruct (proj1 HL eq_refl) as (l & Hin & Hl).
    destruct (kept (line_count l)); [|easy]. destruct Hl as [Hl|[]].
    exact (Hnot l Hin Hl).
Qed.

(** C3, as amended.  For every body held by a buffer without suffixes: a
    suffix whose every matching line carries the count written as the
    single character [0] is not among the suffixes after [Parse], and
    [Lookup] returns false for it. *)
Theorem Parse_excludes_padding buf s :
  Suffixes buf = [] ->
  Z.of_nat (length (Buffer buf)) < 2 ^ 63 ->
  (forall line o, In line (lines_of (Buffer buf)) ->
                  pwnedLinePattern_FindSubmatch line = Some (s, o) ->
                  o = [ZERO]) ->
  ~ In s (Suffixes (Parse buf)) /\ Lookup (Parse buf) s = false.
Proof.
  intros H0 Hlen Hzero.
  assert (~ In s (retained (lines_of (Buffer buf)))) as Hnot.
  { rewrite In_retained. intros (line & o & Hin & Hm & Hk).
    rewrite (Hzero line o Hin Hm) in Hk. discriminate. }
  split.
  - rewrite Suffixes_Parse, H0. exact Hnot.
  - destruct (Lookup (Parse buf) s) eqn:E; [|reflexivity].
    apply Lookup_Parse in E; [contradiction | exact H0 | exact Hlen].
Qed.

(** C4, as amended.  After [Parse] on a buffer without suffixes: when the
    flag is on the suffixes are in strictly ascending order, so that an
    adjacent pair of suffixes that is not ascending turns it off; when the
    suffixes of all the matching lines of the body, padding lines
    included, are in strictly ascending order the flag is on; and [Lookup]
    decides membership in the suffixes whatever the flag. *)
Theorem SuffixesSorted_Parse buf :
  Suffixes buf = [] ->
  Z.of_nat (length (Buffer buf)) < 2 ^ 63 ->
  (SuffixesSorted (Parse buf) = true -> ascending (Suffixes (Parse buf)))
  /\ (forall l1 a b l2,
        Suffixes (Parse buf) = l1 ++ a :: b :: l2 ->
        0 <= bytes_Compare a b ->
        SuffixesSorted (Parse buf) = false)
  /\ (ascending (matched (lines_of (Buffer buf))) ->
      SuffixesSorted (Parse buf) = true)
  /\ (forall s, Lookup (Parse buf) s = true <-> In s (Suffixes (Parse buf))).
Proof.
  intros H0 Hlen.
  assert (SuffixesSorted (Parse buf) = true -> ascending (Suffixes (Parse buf)))
    as Hsound.
  { apply SuffixesSorted_Parse_sound. rewrite H0. constructor. }
  split; [exact Hsound|]. split; [|split].
  - intros l1 a b l2 E Hab.
    destruct (SuffixesSorted (Parse buf)); [|reflexivity]. exfalso.
    specialize (Hsound eq_refl). rewrite E in Hsound. unfold ascending in Hsound.
    clear -Hsound Hab. induction l1 as [|x l1 IH]; simpl in Hsound.
    + inversion Hsound as [|? ? _ Hall]; subst.
      inversion Hall as [|? ? Hb _]; subst. unfold blt in Hb. lia.
    + inversion Hsound; subst. auto.
  - now apply SuffixesSorted_Parse_complete.
  - intros s. rewrite Lookup_Parse by assumption.
    rewrite Suffixes_Parse, H0. reflexivity.
Qed.

(** The cases of [TestPwnedResultParsing]: flag and suffixes after
    [Parse]. *)
Example parse_empty :
  view (Parse (holding [])) = (true, []).
Proof. reflexivity. Qed.

Example parse_invalid :
  view (Parse (holding (bytes "invalid example" ++ [LF]))) = (true, []).
Proof. reflexivity. Qed.

Example parse_one_line :
  view (Parse (holding (body_of [line_of suffix_0 "1"] None)))
  = (true, [suffix_0]).
Proof. reflexivity. Qed.

Example parse_no_final_newline :
  view (Parse (holding (body_of [] (Some (line_of suffix_0 "1")))))
  = (true, [suffix_0]).
Proof. reflexivity. Qed.

Example parse_two_ascending :
  view (Parse (holding (body_of [line_of suffix_0 "1"; line_of suffix_1 "1"] None)))
  = (true, [suffix_0; suffix_1]).
Proof. reflexivity. Qed.

Example parse_two_descending :
  view (Parse (holding (body_of [line_of suffix_1 "1"; line_of suffix_0 "1"] None)))
  = (false, [suffix_1; suffix_0]).
Proof. reflexivity. Qed.

Example parse_padding :
  view (Parse (holding (body_of [line_of suffix_0 "0"] None))) = (true, []).
Proof. reflexivity. Qed.

Example lookup_cannot_exist :
  Lookup (Parse (holding (body_of [line_of suffix_0 "1"] None)))
    (bytes "cantexist") = false.
Proof. reflexivity. Qed.

(** C1 on a body of three lines, the last one unterminated: the suffix of
    the first line is found, a suffix of no line is not. *)
Lemma Parse_Lookup_well_formed_witness :
  let ls := [mkLine suffix_0 (bytes "12") [CR]; line_of suffix_1 "0"] in
  let final := Some (line_of suffix_2 "3") in
  let buf := holding (body_of ls final) in
  Lookup (Parse buf) suffix_0 = true
  /\ Lookup (Parse buf) (bytes "3123456789ABCDEF0123456789ABCDEF012") = false.
Proof.
  intros ls final buf. split.
  - apply (proj1 (Parse_Lookup_well_formed ls final buf suffix_0
                    eq_refl eq_refl eq_refl eq_refl)).
    exists (mkLine suffix_0 (bytes "12") [CR]).
    split; [left; reflexivity|]. split; [reflexivity|].
    vm_compute. discriminate.
  - apply (proj2 (Parse_Lookup_well_formed ls final buf _
                    eq_refl eq_refl eq_refl eq_refl)).
    intros l [<-|[<-|[<-|[]]]]; vm_compute; discriminate.
Defined.

(** C3 as stated fails: a count written [00] denotes zero, yet its suffix
    is kept by [Parse] and found by [Lookup]. *)
Lemma zero_written_00_is_kept :
  let body := body_of [line_of suffix_0 "00"] None in
  (forall line o, In line (lines_of body) ->
                  pwnedLinePattern_FindSubmatch line = Some (suffix_0, o) ->
                  decimal o = 0)
  /\ In suffix_0 (Suffixes (Parse (holding body)))
  /\ Lookup (Parse (holding body)) suffix_0 = true.
Proof.
  intros body. split; [|split].
  - intros line o Hin. vm_compute in Hin.
    destruct Hin as [<-|[<-|[]]]; intros Hm; vm_compute in Hm.
    + injection Hm as <-. reflexivity.
    + discriminate.
  - vm_compute. left. reflexivity.
  - reflexivity.
Qed.

(** C3 as amended, on a body whose only line is a padding line. *)
Lemma Parse_excludes_padding_witness :
  let buf := holding (body_of [mkLine suffix_0 (bytes "0") [CR]] None) in
  ~ In suffix_0 (Suffixes (Parse buf)) /\ Lookup (Parse buf) suffix_0 = false.
Proof.
  intros buf. apply (Parse_excludes_padding buf suffix_0 eq_refl eq_refl).
  intros line o Hin. vm_compute in Hin.
  destruct Hin as [<-|[<-|[]]]; intros Hm; vm_compute in Hm.
  - injection Hm as <-. reflexivity.
  - discriminate.
Defined.

(** C4 as stated fails in both directions of its reading of the input: a
    padding line out of order turns the flag off although the suffixes
    kept are in order, and a descending pair of lines whose first one is a
    padding line leaves the flag on. *)
Lemma SuffixesSorted_not_exact :
  (let buf := Parse (holding (body_of [line_of suffix_1 "1"; line_of suffix_0 "0"] None)) in
   ascending (Suffixes buf) /\ SuffixesSorted buf = false)
  /\ (let buf := Parse (holding (body_of [line_of suffix_1 "0"; line_of suffix_0 "1"] None)) in
      bytes_Compare suffix_1 suffix_0 = 1 /\ SuffixesSorted buf = true).
Proof.
  split; intros buf.
  - split; [|reflexivity]. vm_compute. repeat constructor.
  - split; reflexivity.
Qed.

(** C4 as amended, on the ascending body of the test suite. *)
Lemma SuffixesSorted_Parse_witness :
  let buf := holding (body_of [line_of suffix_0 "1"; line_of suffix_1 "1"] None) in
  (SuffixesSorted (Parse buf) = true -> ascending (Suffixes (Parse buf)))
  /\ (forall l1 a b l2,
        Suffixes (Parse buf) = l1 ++ a :: b :: l2 ->
        0 <= bytes_Compare a b ->
        SuffixesSorted (Parse buf) = false)
  /\ (ascending (matched (lines_of (Buffer buf))) ->
      SuffixesSorted (Parse buf) = true)
  /\ (forall s, Lookup (Parse buf) s = true <-> In s (Suffixes (Parse buf))).
Proof.
  intros buf. exact (SuffixesSorted_Parse buf eq_refl eq_refl).
Defined.

(** ** The hash of the password *)

Lemma word_bytes_length x : length (SHA1.word_bytes x) = 4%nat.
Proof. reflexivity. Qed.

Lemma SHA1_Sum_length data : length (SHA1.Sum data) = 20%nat.
Proof.
  unfold SHA1.Sum.
  destruct (SHA1.blocks _ _ _) as [[[[h0 h1] h2] h3] h4].
  rewrite !length_app, !word_bytes_length. reflexivity.
Qed.

Lemma hexsum_of_eq password :
  hexsum_of password
  = map upper_byte (hex_Encode (SHA1.Sum (list_byte_of_string password))).
Proof.
  unfold hexsum_of, strings_ToUpper, hex_EncodeToString.
  now rewrite !list_byte_of_string_of_list_byte.
Qed.

Lemma hex_Encode_length src : length (hex_Encode src) = (2 * length src)%nat.
Proof. induction src as [|v src IH]; simpl; lia. Qed.

Lemma hex_Encode_upper src :
  forallb is_upper_hex (map upper_byte (hex_Encode src)) = true.
Proof.
  induction src as [|v src IH]; simpl; [reflexivity|].
  rewrite IH, !andb_true_r. destruct v; reflexivity.
Qed.

(** The digest in hexadecimal is 40 characters among [0-9A-F]. *)
Lemma hexsum_of_length password : length (hexsum_of password) = 40%nat.
Proof.
  now rewrite hexsum_of_eq, length_map, hex_Encode_length, SHA1_Sum_length.
Qed.

Lemma hexsum_of_upper_hex password :
  forallb is_upper_hex (hexsum_of password) = true.
Proof. rewrite hexsum_of_eq. apply hex_Encode_upper. Qed.

Lemma prefix_suffix_of password :
  prefix_of password ++ suffix_of password = hexsum_of password.
Proof. apply firstn_skipn. Qed.

Lemma prefix_of_length password : length (prefix_of password) = 5%nat.
Proof.
  unfold prefix_of. rewrite length_firstn, hexsum_of_length. reflexivity.
Qed.

Lemma suffix_of_length password : length (suffix_of password) = 35%nat.
Proof.
  unfold suffix_of. rewrite length_skipn, hexsum_of_length. reflexivity.
Qed.

Lemma suffix_of_upper_hex password :
  forallb is_upper_hex (suffix_of password) = true.
Proof.
  pose proof (hexsum_of_upper_hex password) as H.
  rewrite <- prefix_suffix_of, forallb_app in H.
  apply andb_true_iff in H. tauto.
Qed.

(** The digest of the password of the test suite. *)
Example hexsum_password1 :
  hexsum_of "password1" = bytes "E38AD214943DAAD1D64C102FAEC29DE4AFE9DA3D".
Proof. vm_compute. reflexivity. Qed.

(** ** The request URL *)

Lemma list_byte_of_string_app s t :
  list_byte_of_string (String.append s t)
  = list_byte_of_string s ++ list_byte_of_string t.
Proof.
  induction s as [|a s IH]; simpl; [reflexivity|].
  unfold list_byte_of_string in *. simpl. now rewrite IH.
Qed.

Lemma URL_bytes prefix :
  list_byte_of_string (PwnedPasswordsURL (string_of_list_byte prefix))
  = bytes "https://api.pwnedpasswords.com/range/" ++ prefix.
Proof.
  unfold PwnedPasswordsURL.
  now rewrite list_byte_of_string_app, list_byte_of_string_of_list_byte.
Qed.

(** A run of 35 characters among [0-9A-F] does not occur in the URL of a
    five-character prefix: the URL has 42 characters, so the run would
    cover the second slash of [https://]. *)
Lemma suffix_not_in_URL prefix s :
  length prefix = 5%nat -> length s = 35%nat ->
  forallb is_upper_hex s = true ->
  ~ occurs_in s
      (list_byte_of_string (PwnedPasswordsURL (string_of_list_byte prefix))).
Proof.
  intros Hp Hs Hhex (a & b & E). rewrite URL_bytes in E.
  assert (length a + 35 + length b = 42)%nat as Hlen.
  { apply (f_equal (@length byte)) in E.
    rewrite !length_app, Hp, Hs in E. simpl in E. lia. }
  assert (nth 7 (a ++ s ++ b) x00 = x2f) as H7.
  { rewrite <- E. reflexivity. }
  rewrite app_nth2 in H7 by lia. rewrite app_nth1 in H7 by lia.
  rewrite forallb_forall in Hhex.
  specialize (Hhex (nth (7 - length a) s x00) ltac:(apply nth_In; lia)).
  rewrite H7 in Hhex. discriminate.
Qed.

(** * The client *)

Arguments Parse : simpl never.

Section ClientProperties.

Context {W : Type} (dc : @HTTPClient W).
Implicit Types (c : @PwnedClient W) (st : @State W) (m : @Machine W).

Lemma ReqContext_request_for c x prefix :
  ReqContext (request_for c x prefix) = x.
Proof.
  unfold request_for. now destruct (negb _).
Qed.

Ltac munfold :=
  unfold bind, ret, panic, call_Do, call_Add, call_Contains, lift_option in *.

Lemma doRequest_nil_ctx c buf prefix st :
  doRequest dc c None buf prefix st
  = (Some (None, Some (errorString "net/http: nil Context"), buf), st).
Proof. reflexivity. Qed.

(** [doRequest] with a context, by cases on what the transport, the body
    and the cache answer. *)
Lemma doRequest_unfold c x buf prefix st :
  doRequest dc c (Some x) buf prefix st =
  let req := request_for c x prefix in
  let (r, w) := Do (client_of dc c) req (world st) in
  let st1 := after_Do st req w in
  match r with
  | (res, Some err) => (Some (res, Some err, buf), st1)
  | (None, None) => (None, st1)
  | (Some res, None) =>
      if StatusCode res =? http_StatusOK then
        let (data, rerr) := read_all (Body res) in
        let buf1 := mkBuffer (Buffer buf ++ data) (SuffixesSorted buf)
                      (Suffixes buf) in
        match rerr with
        | Some err => (Some (Some res, Some err, buf1), st1)
        | None =>
            let buf2 := Parse buf1 in
            match Cache c with
            | Some cache =>
                if 0 <? Z.of_nat (length (Suffixes buf2)) then
                  let (aerr, w2) := Add cache x prefix (Suffixes buf2) w in
                  let st2 := after_Add st1 prefix (Suffixes buf2) w2 in
                  match aerr with
                  | Some err => (Some (Some res, Some err, buf2), st2)
                  | None =>
                      (Some (Some (set_Body res (resultBuffer buf2)), None, buf2),
                       st2)
                  end
                else (Some (Some (set_Body res (resultBuffer buf2)), None, buf2),
                      st1)
            | None =>
                (Some (Some (set_Body res (resultBuffer buf2)), None, buf2), st1)
            end
        end
      else (Some (Some res, None, buf), st1)
  end.
Proof.
  unfold doRequest, http_NewRequestWithContext.
  fold (request_for c x prefix). fold (client_of dc c).
  rewrite ReqContext_request_for. munfold. fold (after_Do st (request_for c x prefix)).
  destruct (Do _ _ _) as [[[res|] [err|]] w]; try reflexivity.
  destruct (StatusCode res =? http_StatusOK); [|reflexivity].
  destruct (read_all (Body res)) as [data [rerr|]]; [reflexivity|].
  destruct (Cache c) as [cache|]; [|reflexivity].
  destruct (0 <? _); [|reflexivity].
  unfold after_Add, after_Do. cbn [world trace bufferPool requests boxes].
  destruct (Add _ _ _ _ _) as [[aerr|] w2]; reflexivity.
Qed.

(** [doRequest] touches neither the pool, nor the table, nor the boxes,
    and hands at most one request to the transport: the one built from
    the prefix. *)
Lemma doRequest_frame c ctx buf prefix st r st' :
  doRequest dc c ctx buf prefix st = (r, st') ->
  bufferPool st' = bufferPool st /\ requests st' = requests st
  /\ boxes st' = boxes st
  /\ (trace st' = trace st
      \/ exists x, ctx = Some x
           /\ (trace st' = trace st ++ [EvDo (request_for c x prefix)]
               \/ exists ss,
                    trace st'
                    = trace st ++ [EvDo (request_for c x prefix);
                                   EvAdd prefix ss])).
Proof.
  destruct ctx as [x|].
  2:{ rewrite doRequest_nil_ctx. intros [= <- <-]. auto. }
  rewrite doRequest_unfold. cbv zeta.
  destruct (Do _ _ _) as [[res err] w].
  assert (forall r0, (r0, after_Do st (request_for c x prefix) w) = (r, st') ->
            bufferPool st' = bufferPool st /\ requests st' = requests st
            /\ boxes st' = boxes st
            /\ (trace st' = trace st
                \/ exists x0, Some x = Some x0
                     /\ (trace st' = trace st ++ [EvDo (request_for c x0 prefix)]
                         \/ exists ss,
                              trace st'
                              = trace st ++ [EvDo (request_for c x0 prefix);
                                             EvAdd prefix ss]))) as Hdo.
  { intros r0 [= _ <-]. repeat split. right. exists x. split; [reflexivity|].
    left. reflexivity. }
  assert (forall r0 ss w2,
            (r0, after_Add (after_Do st (request_for c x prefix) w) prefix ss w2)
            = (r, st') ->
            bufferPool st' = bufferPool st /\ requests st' = requests st
            /\ boxes st' = boxes st
            /\ (trace st' = trace st
                \/ exists x0, Some x = Some x0
                     /\ (trace st' = trace st ++ [EvDo (request_for c x0 prefix)]
                         \/ exists ss,
                              trace st'
                              = trace st ++ [EvDo (request_for c x0 prefix);
                                             EvAdd prefix ss]))) as Hadd.
  { intros r0 ss w2 [= _ <-]. repeat split. right. exists x.
    split; [reflexivity|]. right. exists ss. simpl. now rewrite <- app_assoc. }
  destruct res as [res|], err as [err|]; eauto.
  destruct (StatusCode res =? http_StatusOK); eauto.
  destruct (read_all (Body res)) as [data [rerr|]]; eauto.
  destruct (Cache c) as [cache|]; eauto.
  destruct (0 <? _); eauto.
  destruct (Add _ _ _ _ _) as [[aerr|] w2]; eauto.
Qed.

Lemma network_requests_app st evs :
  length (filter (fun e => is_EvDo e = true) (trace st ++ evs))
  = (network_requests st + length (filter (fun e => is_EvDo e = true) evs))%nat.
Proof. unfold network_requests. now rewrite filter_app, length_app. Qed.

(** A call of [doRequest] that has a context and does not panic hands
    exactly one request to the transport. *)
Lemma doRequest_one_request c x buf prefix st r st' :
  doRequest dc c (Some x) buf prefix st = (Some r, st') ->
  network_requests st' = S (network_requests st).
Proof.
  rewrite doRequest_unfold. cbv zeta.
  destruct (Do _ _ _) as [[res err] w].
  assert (network_requests (after_Do st (request_for c x prefix) w)
          = S (network_requests st)) as Hdo.
  { unfold network_requests at 1, after_Do. cbn [trace].
    rewrite network_requests_app. simpl. lia. }
  assert (forall ss w2,
            network_requests
              (after_Add (after_Do st (request_for c x prefix) w) prefix ss w2)
            = S (network_requests st)) as Hadd.
  { intros ss w2. unfold network_requests at 1, after_Add. cbn [trace].
    rewrite network_requests_app, Hdo. simpl. lia. }
  destruct res as [res|], err as [err|]; try (intros [= _ <-]; auto; fail).
  destruct (StatusCode res =? http_StatusOK); [|intros [= _ <-]; auto].
  destruct (read_all (Body res)) as [data [rerr|]]; [intros [= _ <-]; auto|].
  destruct (Cache c) as [cache|]; [|intros [= _ <-]; auto].
  destruct (0 <? _); [|intros [= _ <-]; auto].
  destruct (Add _ _ _ _ _) as [[aerr|] w2]; intros [= _ <-]; auto.
Qed.

(** *** The pieces of [Check] *)

Lemma Check_cache_frame c ctx prefix suffix st r st' :
  Check_cache c ctx prefix suffix st = (r, st') ->
  (exists o, r = Some o)
  /\ bufferPool st' = bufferPool st /\ requests st' = requests st
  /\ boxes st' = boxes st
  /\ network_requests st' = network_requests st
  /\ (trace st' = trace st \/ trace st' = trace st ++ [EvContains prefix suffix]).
Proof.
  unfold Check_cache. destruct (Cache c) as [cache|].
  2:{ munfold. intros [= <- <-]. repeat split; eauto. }
  munfold. destruct (Contains _ _ _ _ _) as [[b err] w].
  assert (network_requests
            (mkState w (trace st ++ [EvContains prefix suffix]) (bufferPool st)
               (requests st) (boxes st)) = network_requests st) as Hn.
  { unfold network_requests at 1. cbn [trace].
    rewrite network_requests_app. simpl. lia. }
  destruct err as [e|], b; intros [= <- <-]; repeat split; eauto.
Qed.

Lemma lookup_snoc_length {A} (l : list A) x : (l ++ [x]) !! length l = Some x.
Proof. now rewrite list_lookup_middle. Qed.

Lemma insert_snoc_length {A} (l : list A) x y :
  <[length l := y]> (l ++ [x]) = l ++ [y].
Proof.
  replace (length l) with (length l + 0)%nat at 1 by lia.
  now rewrite insert_app_r.
Qed.

(** [doCheck] when the table has no task for the prefix: a box is made
    over a pooled buffer, entered in the table and acquired. *)
Lemma doCheck_fresh ctx prefix st :
  requests st !! string_of_list_byte prefix = None ->
  doCheck ctx prefix st
  = (Some (length (boxes st)),
     mkState (world st) (trace st) (tl (bufferPool st))
       (<[string_of_list_byte prefix := length (boxes st)]> (requests st))
       (boxes st ++ [mkBox 1 (Some (string_of_list_byte prefix))
                       (once_pending ctx prefix) (hd [] (bufferPool st))])).
Proof.
  intros Hnone. unfold doCheck, get_requests, bufferPool_Get, alloc_box,
    set_request, Acquire, get_box, set_box. munfold.
  rewrite Hnone. destruct st as [w tr pool rq bx].
  destruct pool as [|buffer rest];
    cbn [world trace bufferPool requests boxes hd tl];
    rewrite lookup_snoc_length;
    cbn [world trace bufferPool requests boxes Refcount OnRelease Value
           box_buffer];
    rewrite insert_snoc_length; reflexivity.
Qed.

(** [doCheck] when the table has a task for the prefix: it is acquired. *)
Lemma doCheck_join ctx prefix st b box :
  requests st !! string_of_list_byte prefix = Some b ->
  boxes st !! b = Some box ->
  doCheck ctx prefix st
  = (Some b,
     mkState (world st) (trace st) (bufferPool st) (requests st)
       (<[b := mkBox (wrap32 (Refcount box + 1)) (OnRelease box) (Value box)
                 (box_buffer box)]> (boxes st))).
Proof.
  intros Hb Hbox. unfold doCheck, get_requests, Acquire, get_box, set_box.
  munfold. rewrite Hb. cbn [boxes]. rewrite Hbox. reflexivity.
Qed.

Lemma box_Value_done c b st box res err :
  boxes st !! b = Some box -> Value box = once_done res err ->
  box_Value dc c b st = (Some (res, err), st).
Proof.
  intros Hbox Hv. unfold box_Value, get_box. munfold.
  rewrite Hbox, Hv. reflexivity.
Qed.

Lemma box_Value_pending c b st box x prefix :
  boxes st !! b = Some box -> Value box = once_pending x prefix ->
  box_Value dc c b st
  = match doRequest dc c (Some x) (mkBuffer (box_buffer box) false []) prefix st
    with
    | (Some (res, err, buf), st') =>
        (Some (res, err),
         mkState (world st') (trace st') (bufferPool st) (requests st)
           (<[b := mkBox (Refcount box) (OnRelease box) (once_done res err)
                     (Buffer buf)]> (boxes st)))
    | (None, st') => (None, st')
    end.
Proof.
  intros Hbox Hv. unfold box_Value, get_box, set_box. munfold.
  rewrite Hbox, Hv.
  destruct (doRequest _ _ _ _ _ _) as [[[[res err] buf]|] st'] eqn:E;
    [|reflexivity].
  apply doRequest_frame in E. destruct E as (Hp & Hr & Hb & _).
  rewrite Hb, Hbox, Hp, Hr. reflexivity.
Qed.

Lemma Release_dec_run b st box :
  boxes st !! b = Some box ->
  Release_dec b st
  = (Some (wrap32 (Refcount box - 1) =? 0),
     mkState (world st) (trace st) (bufferPool st) (requests st)
       (<[b := mkBox (wrap32 (Refcount box - 1)) (OnRelease box) (Value box)
                 (box_buffer box)]> (boxes st))).
Proof.
  intros Hbox. unfold Release_dec, get_box, set_box. munfold.
  rewrite Hbox. reflexivity.
Qed.

Lemma Release_call_run b st box ps :
  boxes st !! b = Some box -> OnRelease box = Some ps ->
  Release_call b st
  = (Some tt,
     mkState (world st) (trace st) (box_buffer box :: bufferPool st)
       (delete ps (requests st)) (boxes st)).
Proof.
  intros Hbox Hon. unfold Release_call, get_box, releaseRequest,
    bufferPool_Put. munfold. rewrite Hbox, Hon. reflexivity.
Qed.

(** Calling [OnRelease] once it has been set to nil panics. *)
Lemma Release_call_nil b st box :
  boxes st !! b = Some box -> OnRelease box = None ->
  Release_call b st = (None, st).
Proof.
  intros Hbox Hon. unfold Release_call, get_box. munfold.
  rewrite Hbox, Hon. reflexivity.
Qed.

Lemma Release_clear_run b st box :
  boxes st !! b = Some box ->
  Release_clear b st
  = (Some tt,
     mkState (world st) (trace st) (bufferPool st) (requests st)
       (<[b := mkBox (Refcount box) None (Value box) (box_buffer box)]>
          (boxes st))).
Proof.
  intros Hbox. unfold Release_clear, get_box, set_box. munfold.
  rewrite Hbox. reflexivity.
Qed.

(** [Check] by a caller alone, when the table has no task for its
    prefix and the cache, if any, does not answer: the outcome is that
    of the request, and the box is released and removed. *)
Lemma Check_fresh c ctx password st st1 res err buf st3 r :
  let x := ctx_or_Background ctx in
  let prefix := prefix_of password in
  Check_cache c x prefix (suffix_of password) st = (Some None, st1) ->
  requests st1 !! string_of_list_byte prefix = None ->
  doRequest dc c (Some x) (mkBuffer (hd [] (bufferPool st1)) false []) prefix
    (joined_fresh st1 x prefix) = (Some (res, err, buf), st3) ->
  Check_result res err (suffix_of password) = Some r ->
  Check dc c ctx password st
  = (Some r,
     mkState (world st3) (trace st3) (Buffer buf :: tl (bufferPool st1))
       (requests st1)
       (boxes st1 ++ [mkBox 0 None (once_done res err) (Buffer buf)])).
Proof.
  intros x prefix Hcache Hnone Hreq Hres. unfold Check.
  fold x. fold prefix. unfold bind at 1. rewrite Hcache.
  unfold bind at 1. rewrite (doCheck_fresh x prefix st1 Hnone).
  fold (joined_fresh st1 x prefix).
  unfold bind at 1.
  rewrite (box_Value_pending c (length (boxes st1)) (joined_fresh st1 x prefix)
             (mkBox 1 (Some (string_of_list_byte prefix))
                (once_pending x prefix) (hd [] (bufferPool st1))) x prefix
             (lookup_snoc_length _ _) eq_refl).
  cbn [box_buffer Refcount OnRelease]. rewrite Hreq.
  unfold bind at 1, lift_option. cbn [fst snd]. rewrite Hres.
  unfold joined_fresh. cbn [world trace bufferPool requests boxes].
  rewrite insert_snoc_length.
  unfold bind at 1, Release. unfold bind at 1.
  erewrite Release_dec_run by apply lookup_snoc_length.
  cbn [world trace bufferPool requests boxes Refcount OnRelease Value
         box_buffer].
  rewrite insert_snoc_length. change (wrap32 (1 - 1) =? 0) with true.
  change (wrap32 (1 - 1)) with 0. cbv iota. unfold bind at 1.
  erewrite Release_call_run by (apply lookup_snoc_length || reflexivity).
  cbn [world trace bufferPool requests boxes Refcount OnRelease Value
         box_buffer].
  erewrite Release_clear_run by apply lookup_snoc_length.
  cbn [world trace bufferPool requests boxes Refcount OnRelease Value
         box_buffer].
  rewrite insert_snoc_length, delete_insert_id by exact Hnone.
  reflexivity.
Qed.

(** *** The cache is consulted first *)

(** C10.  With a cache configured, when [Contains] returns [(b, e)] with
    [e] not nil, [Check] returns exactly the pair [(b, e)]: the boolean
    is the one of the cache, whatever it is. *)
Theorem Check_cache_error_pair c ctx password st cache b e w :
  Cache c = Some cache ->
  Contains cache (ctx_or_Background ctx) (prefix_of password)
    (suffix_of password) (world st) = ((b, Some e), w) ->
  fst (Check dc c ctx password st) = Some (b, Some e).
Proof.
  intros Hc Hcontains. unfold Check, Check_cache. rewrite Hc. munfold.
  rewrite Hcontains. destruct b; reflexivity.
Qed.

(** C7.  With a cache configured, when [Contains] returns an error
    [Check] returns this error at once: the transport is not invoked,
    the only call made to a collaborator is the one to [Contains], and
    neither the table nor the boxes change. *)
Theorem Check_cache_error_fails_closed c ctx password st cache b e w :
  Cache c = Some cache ->
  Contains cache (ctx_or_Background ctx) (prefix_of password)
    (suffix_of password) (world st) = ((b, Some e), w) ->
  exists r st',
    Check dc c ctx password st = (Some r, st')
    /\ snd r = Some e
    /\ network_requests st' = network_requests st
    /\ trace st'
       = trace st ++ [EvContains (prefix_of password) (suffix_of password)]
    /\ requests st' = requests st /\ boxes st' = boxes st.
Proof.
  intros Hc Hcontains. unfold Check, Check_cache. rewrite Hc. munfold.
  rewrite Hcontains.
  exists (b, Some e). eexists. split; [destruct b; reflexivity|].
  cbn [snd trace requests boxes]. repeat split.
  unfold network_requests at 1. cbn [trace].
  rewrite network_requests_app. simpl. lia.
Qed.

(** C8.  With a cache configured, when [Contains] returns [(true, nil)]
    [Check] returns [(true, nil)] and the transport is not invoked. *)
Theorem Check_cache_hit c ctx password st cache w :
  Cache c = Some cache ->
  Contains cache (ctx_or_Background ctx) (prefix_of password)
    (suffix_of password) (world st) = ((true, None), w) ->
  exists st',
    Check dc c ctx password st = (Some (true, None), st')
    /\ network_requests st' = network_requests st
    /\ trace st'
       = trace st ++ [EvContains (prefix_of password) (suffix_of password)]
    /\ requests st' = requests st /\ boxes st' = boxes st.
Proof.
  intros Hc Hcontains. unfold Check, Check_cache. rewrite Hc. munfold.
  rewrite Hcontains. eexists. split; [reflexivity|].
  cbn [trace requests boxes]. repeat split.
  unfold network_requests at 1. cbn [trace].
  rewrite network_requests_app. simpl. lia.
Qed.

(** *** Unexpected responses *)


(** *** Writing to the cache *)


(** *** What the transport is given *)

Lemma string_of_list_byte_inj p q :
  string_of_list_byte p = string_of_list_byte q -> p = q.
Proof.
  intros H. apply (f_equal list_byte_of_string) in H.
  now rewrite !list_byte_of_string_of_list_byte in H.
Qed.

Lemma request_for_fields c x prefix :
  Method (request_for c x prefix) = http_MethodGet
  /\ URL (request_for c x prefix)
     = PwnedPasswordsURL (string_of_list_byte prefix)
  /\ ReqContext (request_for c x prefix) = x.
Proof.
  unfold request_for. destruct (negb _); auto.
Qed.

Lemma doCheck_spec ctx prefix st r st' :
  table_ok st ->
  doCheck ctx prefix st = (r, st') ->
  trace st' = trace st
  /\ forall b, r = Some b ->
       exists box, boxes st' !! b = Some box
                   /\ forall x p, Value box = once_pending x p -> p = prefix.
Proof.
  intros Hok.
  destruct (requests st !! string_of_list_byte prefix) as [b|] eqn:Hb.
  - destruct (Hok _ _ Hb) as (box & Hbox & Hval).
    rewrite (doCheck_join _ _ _ _ _ Hb Hbox). intros [= <- <-].
    split; [reflexivity|]. intros b' [= <-]. eexists. split.
    + cbn [boxes]. apply list_lookup_insert_eq.
      now apply lookup_lt_Some in Hbox.
    + cbn [Value]. intros x p Hv. apply string_of_list_byte_inj.
      eapply Hval; eassumption.
  - rewrite (doCheck_fresh _ _ _ Hb). intros [= <- <-].
    split; [reflexivity|]. intros b' [= <-]. eexists. split.
    + cbn [boxes]. apply lookup_snoc_length.
    + cbn [Value]. now intros x p [= _ <-].
Qed.

Lemma box_Value_trace c b st box prefix r st' :
  boxes st !! b = Some box ->
  (forall x p, Value box = once_pending x p -> p = prefix) ->
  box_Value dc c b st = (r, st') ->
  exists evs, trace st' = trace st ++ evs
              /\ forall req, In (EvDo req) evs ->
                             exists x, req = request_for c x prefix.
Proof.
  intros Hbox Hp. destruct (Value box) as [x p|res err] eqn:Hv.
  - rewrite (box_Value_pending _ _ _ _ _ _ Hbox Hv).
    rewrite (Hp x p eq_refl).
    destruct (doRequest _ _ _ _ _ _) as [r0 st0] eqn:E.
    pose proof (doRequest_frame _ _ _ _ _ _ _ E) as (_ & _ & _ & Htr).
    assert (exists evs, trace st0 = trace st ++ evs
              /\ forall req, In (EvDo req) evs ->
                             exists x, req = request_for c x prefix) as Hev.
    { destruct Htr as [Htr|(x0 & [= <-] & [Htr|(ss & Htr)])].
      - exists []. rewrite app_nil_r. split; [exact Htr | intros req []].
      - eexists. split; [exact Htr|]. intros req [[= <-]|[]]. eauto.
      - eexists. split; [exact Htr|].
        intros req [[= <-]|[Hreq|[]]]; [eauto | discriminate]. }
    destruct r0 as [[[res err] buf]|]; intros [= <- <-]; exact Hev.
  - rewrite (box_Value_done _ _ _ _ _ _ Hbox Hv). intros [= <- <-].
    exists []. rewrite app_nil_r. split; [reflexivity | intros req []].
Qed.

Lemma silent_bind {A B} (m : @M W A) (k : A -> @M W B) :
  silent m -> (forall a, silent (k a)) -> silent (bind m k).
Proof.
  intros Hm Hk st r st'. unfold bind.
  destruct (m st) as [[a|] st1] eqn:E.
  - intros H. rewrite (Hk a _ _ _ H). eauto.
  - intros [= _ <-]. eauto.
Qed.

Lemma silent_ret {A} (a : A) : silent (ret (W:=W) a).
Proof. now intros st r st' [= _ <-]. Qed.

Lemma silent_panic {A} : silent (panic (W:=W) (A:=A)).
Proof. now intros st r st' [= _ <-]. Qed.

Lemma silent_get_box b : silent (get_box (W:=W) b).
Proof. now intros st r st' [= _ <-]. Qed.

Lemma silent_set_box b box : silent (set_box (W:=W) b box).
Proof. now intros st r st' [= _ <-]. Qed.

Lemma silent_Release b : silent (Release (W:=W) b).
Proof.
  unfold Release, Release_dec, Release_call, Release_clear.
  repeat first
    [ apply silent_bind; [|intros ?]
    | apply silent_get_box | apply silent_set_box | apply silent_ret
    | apply silent_panic
    | match goal with
      | |- silent (if ?b then _ else _) => destruct b
      | |- silent (match ?o with Some _ => _ | None => _ end) => destruct o
      end
    | now intros st r st' [= _ <-] ].
Qed.

Lemma Release_trace b st r st' :
  Release b st = (r, st') -> trace st' = trace st.
Proof. apply silent_Release. Qed.

(** C5.  Every request that a call of [Check] hands to the transport,
    whatever the outcome of the call, is the request built from the
    first five characters of the hexadecimal digest of the password:
    its URL is [PwnedPasswordsURL] of these five characters, it is a
    GET request that depends on the password through them only, and
    the 35 remaining characters of the digest do not occur in its
    URL. *)
Theorem Check_sends_prefix_only c ctx password st r st' :
  table_ok st ->
  Check dc c ctx password st = (r, st') ->
  exists evs,
    trace st' = trace st ++ evs
    /\ forall req,
         In (EvDo req) evs ->
         Method req = http_MethodGet
         /\ URL req
            = PwnedPasswordsURL
                (string_of_list_byte (firstn 5 (hexsum_of password)))
         /\ (exists x, req = request_for c x (prefix_of password))
         /\ ~ occurs_in (suffix_of password) (list_byte_of_string (URL req)).
Proof.
  intros Hok HCheck.
  enough (exists evs,
             trace st' = trace st ++ evs
             /\ forall req, In (EvDo req) evs ->
                            exists x, req = request_for c x (prefix_of password))
    as (evs & Htr & Hreq).
  { exists evs. split; [exact Htr|]. intros req Hin.
    destruct (Hreq req Hin) as (x & ->).
    destruct (request_for_fields c x (prefix_of password)) as (Hm & Hu & _).
    repeat split; [exact Hm | exact Hu | eauto |].
    rewrite Hu. apply suffix_not_in_URL.
    - apply prefix_of_length.
    - apply suffix_of_length.
    - apply suffix_of_upper_hex. }
  unfold Check in HCheck. unfold bind at 1 in HCheck.
  destruct (Check_cache _ _ _ _ _) as [r1 st1] eqn:Hcache.
  pose proof (Check_cache_frame _ _ _ _ _ _ _ Hcache)
    as ((o & ->) & _ & Hreq1 & Hboxes1 & _ & Htr1).
  assert (exists evs1, trace st1 = trace st ++ evs1
                       /\ forall req, ~ In (EvDo req) evs1) as (evs1 & Hevs1 & Hno1).
  { destruct Htr1 as [Htr1|Htr1].
    - exists []. rewrite app_nil_r. split; [exact Htr1 | intros req []].
    - eexists. split; [exact Htr1|]. intros req [Hreq|[]]. discriminate. }
  assert (table_ok st1) as Hok1.
  { unfold table_ok. rewrite Hreq1, Hboxes1. exact Hok. }
  destruct o as [r0|].
  { injection HCheck as <- <-. exists evs1. split; [exact Hevs1|].
    intros req Hin. exfalso. exact (Hno1 req Hin). }
  unfold bind at 1 in HCheck.
  destruct (doCheck _ _ _) as [rb st2] eqn:HdoCheck.
  pose proof (doCheck_spec _ _ _ _ _ Hok1 HdoCheck) as (Htr2 & Hbox).
  destruct rb as [b|].
  2:{ injection HCheck as <- <-. exists evs1. rewrite Htr2.
      split; [exact Hevs1|]. intros req Hin. exfalso. exact (Hno1 req Hin). }
  destruct (Hbox b eq_refl) as (box & Hlook & Hp).
  unfold bind at 1 in HCheck.
  destruct (box_Value _ _ _ _) as [rv st3] eqn:Hvalue.
  pose proof (box_Value_trace _ _ _ _ _ _ _ Hlook Hp Hvalue)
    as (evs3 & Htr3 & Hreq3).
  assert (trace st3 = trace st ++ (evs1 ++ evs3)
          /\ forall req, In (EvDo req) (evs1 ++ evs3) ->
                         exists x, req = request_for c x (prefix_of password))
    as Hall.
  { rewrite Htr3, Htr2, Hevs1, app_assoc. split; [reflexivity|].
    intros req Hin. apply in_app_or in Hin. destruct Hin as [Hin|Hin].
    - exfalso. exact (Hno1 req Hin).
    - exact (Hreq3 req Hin). }
  destruct rv as [v|].
  2:{ injection HCheck as <- <-. exists (evs1 ++ evs3). exact Hall. }
  unfold bind at 1, lift_option in HCheck.
  destruct (Check_result _ _ _) as [r0|].
  2:{ injection HCheck as <- <-. exists (evs1 ++ evs3). exact Hall. }
  unfold bind at 1 in HCheck.
  destruct (Release b st3) as [rr st4] eqn:Hrel.
  apply Release_trace in Hrel.
  exists (evs1 ++ evs3). rewrite <- Hrel in Hall.
  destruct rr; injection HCheck as <- <-; exact Hall.
Qed.

(** *** Concurrent callers *)


(** The threads of a machine, compared position by position. *)
Lemma table_ok_frame st st' :
  requests st' = requests st -> boxes st' = boxes st ->
  table_ok st -> table_ok st'.
Proof. unfold table_ok. now intros -> ->. Qed.

Lemma table_ok_set_box st b box box' (w : W) tr pool :
  table_ok st -> boxes st !! b = Some box ->
  (forall x p, Value box' = once_pending x p -> Value box = once_pending x p) ->
  table_ok (mkState w tr pool (requests st) (<[b := box']> (boxes st))).
Proof.
  intros Hok Hbox Hval ps b1 Hb1. cbn [requests boxes] in *.
  destruct (Hok _ _ Hb1) as (box1 & Hbox1 & Hval1).
  destruct (decide (b1 = b)) as [->|Hne].
  - exists box'. split.
    + apply list_lookup_insert_eq. now apply lookup_lt_Some in Hbox.
    + intros x p Hv. rewrite Hbox in Hbox1. injection Hbox1 as <-.
      eauto.
  - exists box1. split; [|exact Hval1].
    rewrite list_lookup_insert_ne by congruence. exact Hbox1.
Qed.

(** Every step keeps the table in order. *)
Lemma thread_step_table_ok c t st t' st' :
  table_ok st -> thread_step dc c t st = (Some t', st') -> table_ok st'.
Proof.
  intros Hok. unfold thread_step. destruct (t_pc t) as [| |b|b r|b r|b r|r].
  - unfold bind at 1.
    destruct (Check_cache _ _ _ _ _) as [[o|] st1] eqn:E; [|discriminate].
    unfold ret. intros [= _ <-].
    pose proof (Check_cache_frame _ _ _ _ _ _ _ E) as (_ & _ & Hr & Hb & _).
    eapply table_ok_frame; eassumption.
  - unfold bind at 1.
    destruct (requests st !! string_of_list_byte (t_prefix t)) as [b|] eqn:Hb.
    + destruct (Hok _ _ Hb) as (box & Hbox & Hval).
      rewrite (doCheck_join _ _ _ _ _ Hb Hbox). unfold ret. intros [= _ <-].
      eapply table_ok_set_box; [exact Hok | exact Hbox | auto].
    + rewrite (doCheck_fresh _ _ _ Hb). unfold ret. intros [= _ <-].
      intros ps b1. cbn [requests boxes].
      destruct (decide (ps = string_of_list_byte (t_prefix t))) as [->|Hne].
      * rewrite lookup_insert_eq. intros [= <-]. eexists.
        split; [apply lookup_snoc_length|]. cbn [Value].
        now intros x p [= _ <-].
      * rewrite lookup_insert_ne by congruence. intros Hb1.
        destruct (Hok _ _ Hb1) as (box1 & Hbox1 & Hval1).
        exists box1. split; [|exact Hval1].
        rewrite lookup_app_l; [exact Hbox1|].
        now apply lookup_lt_Some in Hbox1.
  - unfold bind at 1.
    destruct (boxes st !! b) as [box|] eqn:Hbox.
    2:{ unfold box_Value, get_box. munfold. rewrite Hbox. discriminate. }
    destruct (Value box) as [x p|res err] eqn:Hv.
    + rewrite (box_Value_pending c b _ box x p Hbox Hv).
      destruct (doRequest _ _ _ _ _ _) as [[[[res err] buf]|] st1] eqn:E;
        [|discriminate].
      munfold. destruct (Check_result _ _ _); [|discriminate].
      intros [= _ <-].
      eapply table_ok_set_box; [exact Hok | exact Hbox | discriminate].
    + rewrite (box_Value_done c b _ box res err Hbox Hv).
      munfold. destruct (Check_result _ _ _); [|discriminate].
      now intros [= _ <-].
  - unfold bind at 1.
    destruct (boxes st !! b) as [box|] eqn:Hbox.
    2:{ unfold Release_dec, get_box. munfold. rewrite Hbox. discriminate. }
    rewrite (Release_dec_run _ _ _ Hbox). unfold ret. intros [= _ <-].
    eapply table_ok_set_box; [exact Hok | exact Hbox | auto].
  - unfold bind at 1.
    destruct (boxes st !! b) as [box|] eqn:Hbox.
    2:{ unfold Release_call, get_box. munfold. rewrite Hbox. discriminate. }
    destruct (OnRelease box) as [ps|] eqn:Hon.
    2:{ rewrite (Release_call_nil _ _ _ Hbox Hon). discriminate. }
    rewrite (Release_call_run _ _ _ _ Hbox Hon). unfold ret.
    intros [= _ <-] ps1 b1. cbn [requests boxes].
    intros [_ Hb1]%lookup_delete_Some. exact (Hok _ _ Hb1).
  - unfold bind at 1.
    destruct (boxes st !! b) as [box|] eqn:Hbox.
    2:{ unfold Release_clear, get_box. munfold. rewrite Hbox. discriminate. }
    rewrite (Release_clear_run _ _ _ Hbox). unfold ret. intros [= _ <-].
    eapply table_ok_set_box; [exact Hok | exact Hbox | auto].
  - unfold ret. now intros [= _ <-].
Qed.

Lemma run_table_ok c sched m m' :
  table_ok (shared m) -> run dc c sched m = Some m' -> table_ok (shared m').
Proof.
  revert m. induction sched as [|tid sched IH]; intros m Hok; simpl.
  - now intros [= <-].
  - unfold step. destruct (threads m !! tid) as [t|]; [|now apply IH].
    destruct (thread_step dc c t (shared m)) as [[t'|] st'] eqn:E;
      [|discriminate].
    apply IH. cbn [shared]. eapply thread_step_table_ok; eassumption.
Qed.





Lemma run_app c s1 s2 m :
  run dc c (s1 ++ s2) m
  = match run dc c s1 m with
    | Some m1 => run dc c s2 m1
    | None => None
    end.
Proof.
  revert m. induction s1 as [|tid s1 IH]; intros m; simpl; [reflexivity|].
  destruct (step dc c tid m); [apply IH | reflexivity].
Qed.

Lemma step_single c t st :
  step dc c 0 (mkMachine st [t])
  = match thread_step dc c t st with
    | (Some t', st') => Some (mkMachine st' [t'])
    | (None, _) => None
    end.
Proof. reflexivity. Qed.

(** A caller alone goes through [Check] in six steps. *)
Lemma run_one_caller c ctx password st :
  run dc c [0; 0; 0; 0; 0; 0]%nat (mkMachine st [spawn ctx password])
  = match Check dc c ctx password st with
    | (Some r, st') =>
        Some (mkMachine st'
                [mkThread (ctx_or_Background ctx) (prefix_of password)
                   (suffix_of password) (Returned r)])
    | (None, _) => None
    end.
Proof.
  unfold Check, spawn.
  generalize (ctx_or_Background ctx) (prefix_of password) (suffix_of password).
  intros x p s. cbn [run]. unfold Release.
  rewrite step_single. unfold thread_step. cbn [t_pc t_ctx t_prefix t_suffix].
  munfold.
  destruct (Check_cache c x p s st) as [[[r|]|] st1]; cbv beta iota;
    [rewrite !step_single; reflexivity | | reflexivity].
  rewrite step_single. unfold thread_step. cbn [t_pc t_ctx t_prefix t_suffix].
  munfold.
  destruct (doCheck x p st1) as [[b|] st2]; cbv beta iota; [|reflexivity].
  rewrite step_single. unfold thread_step. cbn [t_pc t_ctx t_prefix t_suffix].
  munfold.
  destruct (box_Value dc c b st2) as [[v|] st3]; cbv beta iota; [|reflexivity].
  destruct (Check_result v.1 v.2 s) as [r|]; cbv beta iota; [|reflexivity].
  rewrite step_single. unfold thread_step. cbn [t_pc t_ctx t_prefix t_suffix].
  munfold.
  destruct (Release_dec b st3) as [[[|]|] st4]; cbv beta iota;
    [| rewrite !step_single; reflexivity | reflexivity].
  rewrite step_single. unfold thread_step. cbn [t_pc t_ctx t_prefix t_suffix].
  munfold.
  destruct (Release_call b st4) as [[[]|] st5]; cbv beta iota; [|reflexivity].
  rewrite step_single. unfold thread_step. cbn [t_pc t_ctx t_prefix t_suffix].
  munfold.
  destruct (Release_clear b st5) as [[[]|] st6]; reflexivity.
Qed.


Lemma along_app c s1 s2 m m1 Q :
  run dc c s1 m = Some m1 ->
  along dc c s1 m Q -> along dc c s2 m1 Q -> along dc c (s1 ++ s2) m Q.
Proof.
  revert m. induction s1 as [|tid s1 IH]; intros m; simpl.
  - intros [= <-] _ H. exact H.
  - destruct (step dc c tid m) as [m'|]; [|discriminate].
    intros Hrun [Hm Hs] H2. split; [exact Hm|]. now apply IH.
Qed.


(** An invariant of the steps holds along every schedule. *)
Lemma along_invariant c (Q : Machine -> Prop) :
  (forall tid m m', Q m -> step dc c tid m = Some m' -> Q m') ->
  forall sched m, Q m -> along dc c sched m Q.
Proof.
  intros Hstep sched. induction sched as [|tid sched IH]; intros m Hm; simpl.
  - auto.
  - split; [exact Hm|]. destruct (step dc c tid m) as [m'|] eqn:E; eauto.
Qed.

Lemma count_insert f ts i t t' :
  ts !! i = Some t ->
  (count f (<[i := t']> ts) + (if f (t_pc t) then 1 else 0)
   = count f ts + (if f (t_pc t') then 1 else 0))%nat.
Proof.
  revert i. induction ts as [|t0 ts IH]; intros [|i]; simpl; try easy.
  - intros [= ->]. lia.
  - intros H. specialize (IH i H). lia.
Qed.

Lemma count_le_length f ts : (count f ts <= length ts)%nat.
Proof.
  induction ts as [|t ts IH]; simpl; [lia|]. destruct (f (t_pc t)); lia.
Qed.




Lemma count_all_inv f ts :
  count f ts = length ts -> Forall (fun t => f (t_pc t) = true) ts.
Proof.
  induction ts as [|t ts IH]; simpl; [constructor|].
  pose proof (count_le_length f ts). destruct (f (t_pc t)) eqn:E; [|lia].
  intros H'. constructor; [exact E | apply IH; lia].
Qed.




Lemma is_AtValue_refl b : is_AtValue b (AtValue b) = true.
Proof. simpl. apply Nat.eqb_refl. Qed.




Lemma count_joined b ts :
  count (is_joined b) ts
  = (count (is_AtValue b) ts + count (is_AtRelease b) ts)%nat.
Proof.
  induction ts as [|t ts IH]; simpl; [reflexivity|]. rewrite IH.
  unfold is_joined. destruct (t_pc t); simpl; try lia.
  all: destruct (Nat.eqb _ _); simpl; lia.
Qed.

Section Coalescing.

(** The client, the prefix that the callers share, the index of the
    box made for it and the number of requests made before. *)
Variables (c : @PwnedClient W) (P : list byte) (b0 calls0 : nat).

Let ps : string := string_of_list_byte P.




Lemma wrap32_small z : - 2 ^ 31 <= z < 2 ^ 31 -> wrap32 z = z.
Proof.
  intros H. unfold wrap32. rewrite Z.mod_small; lia.
Qed.





End Coalescing.


End ClientProperties.

(** * The test suite *)

(** [TestErrorUnexpectedResponse]: the request goes to [.../range/E38AD]
    and the error carries the response. *)
Example check_unexpected_response :
  let r := Check offline bad_request_client background password1 fresh in
  fst r = Some (false, Some (ErrorUnexpectedResponse bad_request))
  /\ map (fun e => match e with EvDo req => URL req | _ => EmptyString end)
         (trace (snd r))
     = ["https://api.pwnedpasswords.com/range/E38AD"%string].
Proof. vm_compute. split; reflexivity. Qed.

(** [TestFailingBodyRead]. *)
Example check_failing_body_read :
  fst (Check offline failing_body_client background password1 fresh)
  = Some (false, Some context_Canceled).
Proof. vm_compute. reflexivity. Qed.

(** [TestNilContextToDoRequest]. *)
Example doRequest_nil_context :
  fst (doRequest offline canceled_client None (mkBuffer [] false [])
         (bytes "ABCDE") fresh)
  = Some (None, Some (errorString "net/http: nil Context"),
          mkBuffer [] false []).
Proof. vm_compute. reflexivity. Qed.

(** [TestCheckWithNilContext]; the password is found. *)
Example check_nil_context :
  fst (Check offline ok_client None password1 fresh) = Some (true, None).
Proof. vm_compute. reflexivity. Qed.

(** [TestUserAgent]. *)
Example check_user_agent :
  let r := Check offline user_agent_client background password1 fresh in
  fst r = Some (false, Some context_Canceled)
  /\ map (fun e => match e with EvDo req => Header req | _ => [] end)
         (trace (snd r))
     = [[("User-Agent"%string, "test"%string)]].
Proof. vm_compute. split; reflexivity. Qed.

(** [TestPwnedCache], first call: one call of [Contains], one request,
    one call of [Add], and the password is found. *)
Example check_caching :
  let r := Check offline caching_client background password1 fresh in
  fst r = Some (true, None)
  /\ trace (snd r)
     = [EvContains (prefix_of password1) (suffix_of password1);
        EvDo (request_for caching_client context_Background
                (prefix_of password1));
        EvAdd (prefix_of password1) [suffix_of password1]].
Proof. vm_compute. split; reflexivity. Qed.

(** [TestPwnedCacheWithError], first call: the error of [Add] comes back;
    afterwards no task is left in the table. *)
Example check_cache_add_error :
  fst (Check offline failing_cache_client background password1 fresh)
  = Some (false, Some context_Canceled)
  /\ world used = 1%nat /\ requests used = ∅.
Proof. vm_compute. repeat split; reflexivity. Qed.

Lemma table_ok_empty (w : nat) tr pool bx : table_ok (mkState w tr pool ∅ bx).
Proof. intros ps b H. cbn in H. now rewrite lookup_empty in H. Qed.



(** C10 on the second call of [TestPwnedCacheWithError]. *)
Lemma Check_cache_error_pair_witness :
  fst (Check offline failing_cache_client background password1 used)
  = Some (false, Some context_Canceled).
Proof.
  refine (Check_cache_error_pair offline failing_cache_client background
            password1 used failing_cache false context_Canceled 2%nat _ _).
  - reflexivity.
  - vm_compute. reflexivity.
Defined.

(** C7 on the second call of [TestPwnedCacheWithError]. *)
Lemma Check_cache_error_fails_closed_witness :
  exists r st',
    Check offline failing_cache_client background password1 used
    = (Some r, st')
    /\ snd r = Some context_Canceled
    /\ network_requests st' = network_requests used
    /\ trace st'
       = trace used ++ [EvContains (prefix_of password1) (suffix_of password1)]
    /\ requests st' = requests used /\ boxes st' = boxes used.
Proof.
  refine (Check_cache_error_fails_closed offline failing_cache_client
            background password1 used failing_cache false context_Canceled
            2%nat _ _).
  - reflexivity.
  - vm_compute. reflexivity.
Defined.

(** C8 on a cache that holds the suffix. *)
Lemma Check_cache_hit_witness :
  exists st',
    Check offline hit_client background password1 fresh
    = (Some (true, None), st')
    /\ network_requests st' = network_requests fresh
    /\ trace st'
       = trace fresh ++ [EvContains (prefix_of password1) (suffix_of password1)]
    /\ requests st' = requests fresh /\ boxes st' = boxes fresh.
Proof.
  exact (Check_cache_hit offline hit_client background password1 fresh
           (testPwnedCache (fun _ _ => None) (fun _ _ _ => (true, None)))
           1%nat eq_refl eq_refl).
Defined.



(** C5 on [TestErrorUnexpectedResponse]: the one request goes to
    [.../range/E38AD]. *)
Lemma Check_sends_prefix_only_witness :
  let r := Check offline bad_request_client background password1 fresh in
  exists evs,
    trace (snd r) = trace fresh ++ evs
    /\ forall req,
         In (EvDo req) evs ->
         Method req = http_MethodGet
         /\ URL req
            = PwnedPasswordsURL
                (string_of_list_byte (firstn 5 (hexsum_of password1)))
         /\ (exists x, req = request_for bad_request_client x
                               (prefix_of password1))
         /\ ~ occurs_in (suffix_of password1) (list_byte_of_string (URL req)).
Proof.
  intros r.
  apply (Check_sends_prefix_only offline bad_request_client background
           password1 fresh (fst r) (snd r)).
  - apply table_ok_empty.
  - apply surjective_pairing.
Defined.

(** * More on the response buffer *)

(** The loop of [sort.Search] stays within its bounds, whatever [f]. *)
Lemma Search_loop_range fuel f i j :
  0 <= i -> i <= j -> j < 2 ^ 63 ->
  i <= Search_loop fuel f i j <= j.
Proof.
  revert i j. induction fuel as [|fuel IH]; intros i j Hi Hij Hj; simpl.
  - lia.
  - destruct (i <? j) eqn:E; [|lia]. apply Z.ltb_lt in E.
    pose proof (midpoint i j Hi E Hj) as Hh. cbv zeta in Hh.
    destruct (negb _).
    + specialize (IH (Z.shiftr ((i + j) mod 2 ^ 64) 1 + 1) j). lia.
    + specialize (IH i (Z.shiftr ((i + j) mod 2 ^ 64) 1)). lia.
Qed.

(** The binary search of [Lookup] ends on a comparison for equality with
    an element of the slice. *)
Lemma Lookup_binary_search buf s :
  Z.of_nat (length (Suffixes buf)) < 2 ^ 63 ->
  SuffixesSorted buf = true ->
  Lookup buf s = true -> In s (Suffixes buf).
Proof.
  intros Hlen Hflag. unfold Lookup. rewrite Hflag. simpl.
  set (n := Z.of_nat (length (Suffixes buf))).
  set (f := fun i => 0 <=? bytes_Compare (index_at (Suffixes buf) i) s).
  pose proof (Search_loop_range (Z.to_nat n) f 0 n) as Hr.
  fold (sort_Search n f) in Hr.
  destruct (sort_Search n f <? n) eqn:E; [|discriminate].
  apply Z.ltb_lt in E. intros Heq. apply bytes_Equal_spec in Heq.
  rewrite Heq. unfold index_at. apply nth_In. lia.
Qed.

Lemma Lookup_linear_scan buf s :
  SuffixesSorted buf = false ->
  Lookup buf s = true -> In s (Suffixes buf).
Proof.
  intros Hflag. unfold Lookup. rewrite Hflag. simpl. apply scan_spec.
Qed.

(** X1.  [Lookup] never reports a suffix that the buffer does not hold,
    whatever the flag says and in whatever order the suffixes are: the
    binary search ends on a comparison for equality with an element. *)
Theorem Lookup_never_invents buf s :
  Z.of_nat (length (Suffixes buf)) < 2 ^ 63 ->
  Lookup buf s = true -> In s (Suffixes buf).
Proof.
  intros Hlen. destruct (SuffixesSorted buf) eqn:Hflag.
  - now apply Lookup_binary_search.
  - now apply Lookup_linear_scan.
Qed.

Lemma FindSubmatch_upper_hex line s o :
  pwnedLinePattern_FindSubmatch line = Some (s, o) ->
  length s = 35%nat /\ forallb is_upper_hex s = true.
Proof.
  intros H. apply FindSubmatch_elim in H as (w & _ & Hl & Hh & _). auto.
Qed.

(** X2.  [Parse] empties the raw buffer, overwrites the flag it finds, and
    appends to the suffixes already in the buffer those that it would
    parse from the body alone. *)
Theorem Parse_accumulates buf :
  Buffer (Parse buf) = []
  /\ Suffixes (Parse buf)
     = Suffixes buf ++ Suffixes (Parse (holding (Buffer buf)))
  /\ forall flag, Parse (mkBuffer (Buffer buf) flag (Suffixes buf)) = Parse buf.
Proof.
  split; [apply Buffer_Parse|]. split; [|reflexivity].
  now rewrite !Suffixes_Parse.
Qed.

(** X3.  What [Lookup] finds after [Parse] is a suffix that was in the
    buffer before, or a run of exactly 35 upper-case hexadecimal digits:
    a suffix of another length, or in lower case, is never found. *)
Theorem Lookup_Parse_shape buf s :
  Z.of_nat (length (Suffixes buf) + length (Buffer buf)) < 2 ^ 63 ->
  Lookup (Parse buf) s = true ->
  In s (Suffixes buf)
  \/ (length s = 35%nat /\ forallb is_upper_hex s = true).
Proof.
  intros Hlen Hfound.
  assert (In s (Suffixes (Parse buf))) as Hin.
  { assert (Z.of_nat (length (Suffixes (Parse buf))) < 2 ^ 63) as Hlen'
        by (pose proof (Suffixes_Parse_length buf); lia).
    destruct (SuffixesSorted (Parse buf)) eqn:Hflag.
    - now apply Lookup_binary_search.
    - now apply Lookup_linear_scan. }
  rewrite Suffixes_Parse in Hin. apply in_app_or in Hin as [H|H].
  - now left.
  - right. apply In_retained in H as (line & o & _ & Hm & _).
    eapply FindSubmatch_upper_hex; exact Hm.
Qed.

Lemma line_step_unmatched v line :
  pwnedLinePattern_FindSubmatch line = None -> line_step v line = v.
Proof.
  intros H. unfold line_step, Parse_line. rewrite H. now destruct v.
Qed.

Lemma Parse_eq buf buf' :
  view (Parse buf) = view (Parse buf') -> Parse buf = Parse buf'.
Proof.
  pose proof (Buffer_Parse buf) as H. pose proof (Buffer_Parse buf') as H'.
  destruct (Parse buf), (Parse buf'). unfold view. simpl in *.
  intros [= -> ->]. congruence.
Qed.

(** The lines before a newline do not depend on what follows it. *)
Lemma lines_of_app_LF a :
  exists l ls, forall b, lines_of (a ++ LF :: b) = (l :: ls) ++ lines_of b.
Proof.
  induction a as [|x a (l & ls & IH)].
  - exists [LF], []. intros b. reflexivity.
  - destruct (Byte.eqb x LF) eqn:E.
    + exists [x], (l :: ls). intros b. simpl. rewrite E, IH. reflexivity.
    + exists (x :: l), ls. intros b. simpl. rewrite E, IH. reflexivity.
Qed.

(** X4.  A line that does not match the pattern is skipped: taking it out
    of the body changes nothing to what [Parse] leaves. *)
Theorem Parse_skips_unmatched_line a junk b flag l :
  a = [] \/ (exists a', a = a' ++ [LF]) ->
  no_LF junk ->
  pwnedLinePattern_FindSubmatch (junk ++ [LF]) = None ->
  Parse (mkBuffer (a ++ junk ++ LF :: b) flag l)
  = Parse (mkBuffer (a ++ b) flag l).
Proof.
  intros Ha Hjunk Hnone. apply Parse_eq. rewrite !view_Parse. cbn [Buffer Suffixes].
  destruct Ha as [->|[a' ->]].
  - simpl app. rewrite (lines_of_line junk b Hjunk). simpl.
    now rewrite line_step_unmatched.
  - rewrite <- !app_assoc. simpl app.
    destruct (lines_of_app_LF a') as (l0 & ls & Hl). rewrite !Hl.
    rewrite (lines_of_line junk b Hjunk). rewrite !fold_left_app. simpl.
    now rewrite line_step_unmatched.
Qed.

Lemma no_LF_app u v : no_LF (u ++ v) <-> no_LF u /\ no_LF v.
Proof. unfold no_LF. rewrite forallb_app. apply andb_true_iff. Qed.

(** A newline at the end of a line does not change how it matches. *)
Lemma FindSubmatch_newline line :
  no_LF line ->
  pwnedLinePattern_FindSubmatch (line ++ [LF])
  = pwnedLinePattern_FindSubmatch line.
Proof.
  intros Hline.
  destruct (pwnedLinePattern_FindSubmatch line) as [[s d]|] eqn:E.
  - apply FindSubmatch_elim in E as (w & -> & Hs & Hh & Hd & Hdig & Hw).
    rewrite <- app_assoc. simpl. rewrite <- app_assoc.
    apply FindSubmatch_intro; auto.
    rewrite forallb_app, Hw. reflexivity.
  - destruct (pwnedLinePattern_FindSubmatch (line ++ [LF])) as [[s d]|] eqn:E';
      [|reflexivity].
    apply FindSubmatch_elim in E' as (w & Heq & Hs & Hh & Hd & Hdig & Hw).
    destruct w as [|w0 w] using rev_ind.
    + exfalso. rewrite app_nil_r in Heq.
      destruct d as [|d0 d] using rev_ind; [congruence|].
      change (COLON :: d ++ [d0]) with ((COLON :: d) ++ [d0]) in Heq.
      rewrite app_assoc in Heq. apply app_inj_tail in Heq as [_ <-].
      rewrite forallb_app in Hdig. simpl in Hdig.
      rewrite andb_false_r in Hdig. discriminate.
    + change (COLON :: d ++ w ++ [w0]) with ((COLON :: d) ++ w ++ [w0]) in Heq.
      rewrite !app_assoc in Heq. apply app_inj_tail in Heq as [Heq _].
      rewrite forallb_app in Hw. apply andb_true_iff in Hw as [Hw _].
      rewrite <- app_assoc in Heq. simpl in Heq. subst line.
      rewrite FindSubmatch_intro in E; auto; discriminate.
Qed.

(** The last line of a body, and the lines of the body with one more
    newline. *)
Lemma lines_of_last body :
  exists front final,
    lines_of body = front ++ [final] /\ no_LF final
    /\ lines_of (body ++ [LF]) = front ++ [final ++ [LF]; []].
Proof.
  induction body as [|x body (front & final & IH & Hf & IH')].
  - exists [], []. repeat split.
  - simpl. destruct (Byte.eqb x LF) eqn:E.
    + exists ([x] :: front), final. rewrite IH, IH'. repeat split; auto.
    + rewrite IH, IH'. destruct front as [|l front]; simpl.
      * exists [], (x :: final). repeat split.
        unfold no_LF in *. simpl. now rewrite E.
      * exists ((x :: l) :: front), final. repeat split; auto.
Qed.

(** X5.  The newline after the last line is optional: [Parse] leaves the
    same buffer whether the body ends with it or not. *)
Theorem Parse_final_newline body flag l :
  Parse (mkBuffer (body ++ [LF]) flag l) = Parse (mkBuffer body flag l).
Proof.
  apply Parse_eq. rewrite !view_Parse. cbn [Buffer Suffixes].
  destruct (lines_of_last body) as (front & final & -> & Hf & ->).
  rewrite !fold_left_app. simpl.
  rewrite (line_step_unmatched _ []) by reflexivity.
  unfold line_step, Parse_line. now rewrite FindSubmatch_newline.
Qed.

(** * More on the hash and the URL *)

(** X6.  [Check] cuts the digest of every password into a prefix of 5 and a
    suffix of 35 upper-case hexadecimal digits, and this suffix is one that
    the line pattern accepts: followed by a colon, a count and white space
    it is a line whose first group is the suffix. *)
Theorem Check_key_shape password d w :
  prefix_of password ++ suffix_of password = hexsum_of password
  /\ length (prefix_of password) = 5%nat
  /\ length (suffix_of password) = 35%nat
  /\ forallb is_upper_hex (prefix_of password) = true
  /\ forallb is_upper_hex (suffix_of password) = true
  /\ (d <> [] -> forallb is_digit d = true -> forallb is_space w = true ->
      pwnedLinePattern_FindSubmatch (suffix_of password ++ COLON :: d ++ w)
      = Some (suffix_of password, d)).
Proof.
  pose proof (hexsum_of_upper_hex password) as Hh.
  rewrite <- (prefix_suffix_of password), forallb_app in Hh.
  apply andb_true_iff in Hh as [Hp Hs].
  repeat split; auto using prefix_suffix_of, prefix_of_length, suffix_of_length.
  intros Hd Hdig Hw. apply FindSubmatch_intro; auto using suffix_of_length.
Qed.

(** X7.  The URL determines the prefix: requests for two prefixes go to the
    same URL only when the prefixes are equal. *)
Theorem PwnedPasswordsURL_inj p q :
  PwnedPasswordsURL (string_of_list_byte p)
  = PwnedPasswordsURL (string_of_list_byte q) <-> p = q.
Proof.
  split; [|now intros ->].
  unfold PwnedPasswordsURL. intros H.
  apply (f_equal list_byte_of_string) in H.
  rewrite !list_byte_of_string_app, !list_byte_of_string_of_list_byte in H.
  now apply app_inv_head in H.
Qed.

(** * More on the client *)

Section MoreOnTheClient.

Context {W : Type} (dc : @HTTPClient W).
Implicit Types (c : @PwnedClient W) (st : @State W) (m : @Machine W).

Lemma StatusCode_set_Body res b : StatusCode (set_Body res b) = StatusCode res.
Proof. now destruct res. Qed.

Lemma Body_set_Body res b : Body (set_Body res b) = b.
Proof. now destruct res. Qed.

(** [Check] run by a caller that finds no task for its prefix, in terms of
    the state before the cache was consulted. *)
Lemma Check_alone c ctx password st st1 res err buf st3 r :
  let x := ctx_or_Background ctx in
  let prefix := prefix_of password in
  Check_cache c x prefix (suffix_of password) st = (Some None, st1) ->
  requests st !! string_of_list_byte prefix = None ->
  doRequest dc c (Some x) (mkBuffer (hd [] (bufferPool st)) false []) prefix
    (joined_fresh st1 x prefix) = (Some (res, err, buf), st3) ->
  Check_result res err (suffix_of password) = Some r ->
  Check dc c ctx password st
  = (Some r,
     mkState (world st3) (trace st3) (Buffer buf :: tl (bufferPool st))
       (requests st)
       (boxes st ++ [mkBox 0 None (once_done res err) (Buffer buf)])).
Proof.
  intros x prefix Hcache Hnone Hreq Hres.
  pose proof (Check_cache_frame _ _ _ _ _ _ _ Hcache)
    as (_ & Hpool & Hrq & Hbx & _).
  rewrite <- Hpool, <- Hrq, <- Hbx in *.
  eapply Check_fresh; eassumption.
Qed.

(** The requests sent when [doRequest] starts in the state that [doCheck]
    leaves. *)
Lemma network_requests_joined_fresh c x prefix suffix st st1 o :
  Check_cache c x prefix suffix st = (o, st1) ->
  network_requests (joined_fresh st1 x prefix) = network_requests st.
Proof.
  intros Hcache.
  pose proof (Check_cache_frame _ _ _ _ _ _ _ Hcache) as (_ & _ & _ & _ & H & _).
  exact H.
Qed.

Lemma doRequest_transport_error c x buf prefix st res e w :
  Do (client_of dc c) (request_for c x prefix) (world st) = ((res, Some e), w) ->
  doRequest dc c (Some x) buf prefix st
  = (Some (res, Some e, buf), after_Do st (request_for c x prefix) w).
Proof.
  intros HDo. rewrite doRequest_unfold. cbv zeta. rewrite HDo.
  now destruct res.
Qed.

(** X8.  When the transport fails, a caller alone gets false and the error
    of the transport; the response, if any came with the error, is not
    read, the cache is not written, one request has been sent, the task
    is gone from the table and the buffer is back in the pool as it was
    taken. *)
Theorem Check_transport_error c ctx password st st1 res e w :
  let x := ctx_or_Background ctx in
  let prefix := prefix_of password in
  Check_cache c x prefix (suffix_of password) st = (Some None, st1) ->
  requests st !! string_of_list_byte prefix = None ->
  Do (client_of dc c) (request_for c x prefix) (world st1) = ((res, Some e), w) ->
  exists st',
    Check dc c ctx password st = (Some (false, Some e), st')
    /\ trace st' = trace st1 ++ [EvDo (request_for c x prefix)]
    /\ requests st' = requests st
    /\ bufferPool st' = hd [] (bufferPool st) :: tl (bufferPool st).
Proof.
  intros x prefix Hcache Hnone HDo. subst x prefix.
  eexists. split.
  - eapply Check_alone; [exact Hcache | exact Hnone | |].
    + apply doRequest_transport_error. exact HDo.
    + reflexivity.
  - cbn [trace requests bufferPool Buffer]. auto.
Qed.

Lemma Check_read_error_run c ctx password st st1 res data e w :
  let x := ctx_or_Background ctx in
  let prefix := prefix_of password in
  let buffer := hd [] (bufferPool st) ++ data in
  Check_cache c x prefix (suffix_of password) st = (Some None, st1) ->
  requests st !! string_of_list_byte prefix = None ->
  Do (client_of dc c) (request_for c x prefix) (world st1)
    = ((Some res, None), w) ->
  StatusCode res = http_StatusOK ->
  read_all (Body res) = (data, Some e) ->
  Check dc c ctx password st
  = (Some (false, Some e),
     mkState w (trace st1 ++ [EvDo (request_for c x prefix)])
       (buffer :: tl (bufferPool st)) (requests st)
       (boxes st ++ [mkBox 0 None (once_done (Some res) (Some e)) buffer])).
Proof.
  intros x prefix buffer Hcache Hnone HDo Hok Hread. subst x prefix buffer.
  etransitivity.
  - eapply Check_alone; [exact Hcache | exact Hnone | |].
    + rewrite doRequest_unfold. cbv zeta.
      change (world (joined_fresh st1 ?[a] ?[b])) with (world st1).
      rewrite HDo, Hok, Hread. reflexivity.
    + reflexivity.
  - reflexivity.
Qed.

(** X9.  When reading the body of a 200 response fails, a caller alone gets
    false and the error of the read, and the cache is not written; the
    bytes read before the failure stay in the pooled buffer, which goes
    back to the pool without being reset. *)
Theorem Check_body_read_error c ctx password st st1 res data e w :
  let x := ctx_or_Background ctx in
  let prefix := prefix_of password in
  Check_cache c x prefix (suffix_of password) st = (Some None, st1) ->
  requests st !! string_of_list_byte prefix = None ->
  Do (client_of dc c) (request_for c x prefix) (world st1)
    = ((Some res, None), w) ->
  StatusCode res = http_StatusOK ->
  read_all (Body res) = (data, Some e) ->
  exists st',
    Check dc c ctx password st = (Some (false, Some e), st')
    /\ trace st' = trace st1 ++ [EvDo (request_for c x prefix)]
    /\ requests st' = requests st
    /\ bufferPool st' = (hd [] (bufferPool st) ++ data) :: tl (bufferPool st).
Proof.
  intros x prefix Hcache Hnone HDo Hok Hread. eexists. split.
  - apply (Check_read_error_run c ctx password st st1 res data e w);
      assumption.
  - cbn [trace requests bufferPool]. auto.
Qed.

Lemma doRequest_ok c x buf prefix st res data w :
  Do (client_of dc c) (request_for c x prefix) (world st)
    = ((Some res, None), w) ->
  StatusCode res = http_StatusOK ->
  read_all (Body res) = (data, None) ->
  (forall cache ss, Cache c = Some cache ->
                    fst (Add cache x prefix ss w) = None) ->
  let buf2 :=
    Parse (mkBuffer (Buffer buf ++ data) (SuffixesSorted buf) (Suffixes buf)) in
  exists st',
    doRequest dc c (Some x) buf prefix st
    = (Some (Some (set_Body res (resultBuffer buf2)), None, buf2), st').
Proof.
  intros HDo Hok Hread Hadd. rewrite doRequest_unfold. cbv zeta.
  rewrite HDo, Hok, Z.eqb_refl, Hread.
  destruct (Cache c) as [cache|] eqn:Hc; [|eauto].
  destruct (0 <? _); [|eauto].
  specialize (Hadd cache
                (Suffixes (Parse (mkBuffer (Buffer buf ++ data)
                                    (SuffixesSorted buf) (Suffixes buf))))
                eq_refl).
  destruct (Add _ _ _ _ _) as [aerr w2]. simpl in Hadd. subst aerr. eauto.
Qed.

Lemma Check_ok_run c ctx password st st1 res data w :
  let x := ctx_or_Background ctx in
  let prefix := prefix_of password in
  let buf2 := Parse (holding (hd [] (bufferPool st) ++ data)) in
  Check_cache c x prefix (suffix_of password) st = (Some None, st1) ->
  requests st !! string_of_list_byte prefix = None ->
  Do (client_of dc c) (request_for c x prefix) (world st1)
    = ((Some res, None), w) ->
  StatusCode res = http_StatusOK ->
  read_all (Body res) = (data, None) ->
  (forall cache ss, Cache c = Some cache ->
                    fst (Add cache x prefix ss w) = None) ->
  exists st',
    Check dc c ctx password st
    = (Some (Lookup buf2 (suffix_of password), None), st')
    /\ network_requests st' = S (network_requests st)
    /\ requests st' = requests st
    /\ bufferPool st' = [] :: tl (bufferPool st).
Proof.
  intros x prefix buf2 Hcache Hnone HDo Hok Hread Hadd.
  subst x prefix.
  destruct (doRequest_ok c (ctx_or_Background ctx)
              (mkBuffer (hd [] (bufferPool st)) false []) (prefix_of password)
              (joined_fresh st1 (ctx_or_Background ctx) (prefix_of password))
              res data w HDo Hok Hread Hadd) as (st3 & Hreq).
  cbn [Buffer SuffixesSorted Suffixes] in Hreq.
  fold (holding (hd [] (bufferPool st) ++ data)) in Hreq. fold buf2 in Hreq.
  eexists. split.
  - eapply Check_alone; [exact Hcache | exact Hnone | exact Hreq |].
    unfold Check_result. rewrite StatusCode_set_Body, Hok, Body_set_Body.
    reflexivity.
  - cbn [trace requests bufferPool Buffer]. split; [|split].
    + apply doRequest_one_request in Hreq.
      rewrite (network_requests_joined_fresh _ _ _ _ _ _ _ Hcache) in Hreq.
      exact Hreq.
    + reflexivity.
    + unfold buf2. now rewrite Buffer_Parse.
Qed.

(** X10.  End to end.  When the transport answers 200, the body is read
    without error and the cache, if any, accepts the suffixes, a caller
    alone gets [(found, nil)] where [found] says whether some line of what
    the pooled buffer then holds (what was left in it, followed by the
    body) carries the suffix of the password with a count that [Parse]
    keeps.  One request has been sent, the task is gone from the table
    and the buffer goes back to the pool empty. *)
Theorem Check_found c ctx password st st1 res data w :
  let x := ctx_or_Background ctx in
  let prefix := prefix_of password in
  let body := hd [] (bufferPool st) ++ data in
  Check_cache c x prefix (suffix_of password) st = (Some None, st1) ->
  requests st !! string_of_list_byte prefix = None ->
  Do (client_of dc c) (request_for c x prefix) (world st1)
    = ((Some res, None), w) ->
  StatusCode res = http_StatusOK ->
  read_all (Body res) = (data, None) ->
  (forall cache ss, Cache c = Some cache ->
                    fst (Add cache x prefix ss w) = None) ->
  Z.of_nat (length body) < 2 ^ 63 ->
  exists found st',
    Check dc c ctx password st = (Some (found, None), st')
    /\ (found = true <->
        exists line o,
          In line (lines_of body)
          /\ pwnedLinePattern_FindSubmatch line = Some (suffix_of password, o)
          /\ kept o = true)
    /\ network_requests st' = S (network_requests st)
    /\ requests st' = requests st
    /\ bufferPool st' = [] :: tl (bufferPool st).
Proof.
  intros x prefix body Hcache Hnone HDo Hok Hread Hadd Hlen.
  destruct (Check_ok_run c ctx password st st1 res data w Hcache Hnone HDo Hok
              Hread Hadd) as (st' & HCheck & Hrest).
  eexists. exists st'. split; [exact HCheck|]. split; [|exact Hrest].
  rewrite Lookup_Parse by (cbn [holding Buffer Suffixes]; auto).
  apply In_retained.
Qed.

(** Whatever [doRequest] returns, [Check] can go on with it. *)
Lemma doRequest_returns c x buf prefix st :
  fst (Do (client_of dc c) (request_for c x prefix) (world st)) <> (None, None) ->
  exists res err buf' st',
    doRequest dc c (Some x) buf prefix st = (Some (res, err, buf'), st')
    /\ forall suffix, exists r, Check_result res err suffix = Some r.
Proof.
  intros HDo.
  destruct (Do (client_of dc c) (request_for c x prefix) (world st))
    as [[res err] w] eqn:E.
  cbn [fst] in HDo. destruct err as [err|].
  { do 4 eexists. split; [apply (doRequest_transport_error _ _ _ _ _ _ _ _ E)|].
    intros s. simpl. eauto. }
  rewrite doRequest_unfold. cbv zeta. rewrite E.
  destruct res as [res|]; [|congruence].
  destruct (StatusCode res =? http_StatusOK) eqn:Hok.
  2:{ do 4 eexists. split; [reflexivity|]. intros s. simpl. rewrite Hok.
      simpl. eauto. }
  destruct (read_all (Body res)) as [data [rerr|]].
  { do 4 eexists. split; [reflexivity|]. intros s. simpl. eauto. }
  assert (forall buf2 suffix,
            exists r, Check_result (Some (set_Body res (resultBuffer buf2)))
                        None suffix = Some r) as Hdone.
  { intros buf2 s. unfold Check_result.
    rewrite StatusCode_set_Body, Hok, Body_set_Body. simpl. eauto. }
  destruct (Cache c) as [cache|]; [|do 4 eexists; split; [reflexivity|auto]].
  destruct (0 <? _); [|do 4 eexists; split; [reflexivity|auto]].
  destruct (Add _ _ _ _ _) as [[aerr|] w2]; do 4 eexists;
    (split; [reflexivity|]); auto.
  intros s. simpl. eauto.
Qed.


(** ** The calls that [Check] makes to its collaborators *)

Lemma silent_fun {A} (f : @State W -> option A * @State W) :
  (forall st, trace (snd (f st)) = trace st) -> silent f.
Proof. intros H st r st' E. specialize (H st). now rewrite E in H. Qed.

Lemma silent_doCheck ctx prefix : silent (doCheck (W:=W) ctx prefix).
Proof.
  unfold doCheck, Acquire.
  repeat first
    [ apply silent_bind; [|intros ?]
    | apply silent_get_box | apply silent_set_box | apply silent_ret
    | match goal with
      | |- silent (match ?o with Some _ => _ | None => _ end) => destruct o
      end
    | apply silent_fun; intros st; unfold bufferPool_Get;
      try destruct (bufferPool st); reflexivity ].
Qed.

Lemma silent_Release_dec b : silent (Release_dec (W:=W) b).
Proof.
  unfold Release_dec.
  repeat first
    [ apply silent_bind; [|intros ?]
    | apply silent_get_box | apply silent_set_box | apply silent_ret ].
Qed.

Lemma silent_Release_call b : silent (Release_call (W:=W) b).
Proof.
  unfold Release_call.
  apply silent_bind; [apply silent_get_box|]. intros box.
  destruct (OnRelease box); [|apply silent_panic].
  apply silent_bind; [|intros ?]; apply silent_fun; reflexivity.
Qed.

Lemma silent_Release_clear b : silent (Release_clear (W:=W) b).
Proof.
  unfold Release_clear.
  apply silent_bind; [apply silent_get_box|]. intros box.
  apply silent_set_box.
Qed.

(** What [box.Value()] hands to the collaborators: nothing, a request, or
    a request followed by the suffixes for the cache. *)
Lemma box_Value_events c b st r st' :
  box_Value dc c b st = (r, st') ->
  exists ds,
    trace st' = trace st ++ ds
    /\ (ds = []
        \/ exists x p,
             ds = [EvDo (request_for c x p)]
             \/ exists ss, ds = [EvDo (request_for c x p); EvAdd p ss]).
Proof.
  destruct (boxes st !! b) as [box|] eqn:Hbox.
  2:{ unfold box_Value, get_box, bind. rewrite Hbox. intros [= _ <-].
      exists []. rewrite app_nil_r. auto. }
  destruct (Value box) as [x p|res err] eqn:Hv.
  - rewrite (box_Value_pending _ _ _ _ _ _ _ Hbox Hv).
    destruct (doRequest _ _ _ _ _ _) as [r0 st0] eqn:E.
    pose proof (doRequest_frame _ _ _ _ _ _ _ _ E) as (_ & _ & _ & Htr).
    assert (exists ds,
              trace st0 = trace st ++ ds
              /\ (ds = []
                  \/ exists x p,
                       ds = [EvDo (request_for c x p)]
                       \/ exists ss,
                            ds = [EvDo (request_for c x p); EvAdd p ss]))
      as Hev.
    { destruct Htr as [Htr|(x0 & [= <-] & [Htr|(ss & Htr)])].
      - exists []. rewrite app_nil_r. auto.
      - eexists. split; [exact Htr|]. right. eauto.
      - eexists. split; [exact Htr|]. right. eauto. }
    destruct r0 as [[[res err] buf]|]; intros [= _ <-]; exact Hev.
  - rewrite (box_Value_done _ _ _ _ _ _ _ Hbox Hv). intros [= _ <-].
    exists []. rewrite app_nil_r. auto.
Qed.

(** The events of a call of [Check]. *)
Lemma Check_events c ctx password st :
  exists cs ds,
    trace (snd (Check dc c ctx password st)) = trace st ++ cs ++ ds
    /\ (cs = []
        \/ cs = [EvContains (prefix_of password) (suffix_of password)])
    /\ (ds = []
        \/ exists x p,
             ds = [EvDo (request_for c x p)]
             \/ exists ss, ds = [EvDo (request_for c x p); EvAdd p ss]).
Proof.
  unfold Check. unfold bind at 1.
  destruct (Check_cache _ _ _ _ _) as [r1 st1] eqn:Hcache.
  pose proof (Check_cache_frame _ _ _ _ _ _ _ Hcache)
    as ((o & ->) & _ & _ & _ & _ & Htr1).
  assert (exists cs,
            trace st1 = trace st ++ cs
            /\ (cs = []
                \/ cs = [EvContains (prefix_of password)
                           (suffix_of password)])) as (cs & Hcs & Hshape).
  { destruct Htr1 as [Htr1|Htr1].
    - exists []. rewrite app_nil_r. auto.
    - eexists. split; [exact Htr1|]. auto. }
  exists cs.
  destruct o as [r0|].
  { exists []. rewrite app_nil_r. unfold ret. cbn [snd]. auto. }
  unfold bind at 1.
  destruct (doCheck _ _ _) as [rb st2] eqn:HdoCheck.
  apply silent_doCheck in HdoCheck.
  destruct rb as [b|].
  2:{ exists []. rewrite app_nil_r. cbn [snd]. rewrite HdoCheck. auto. }
  unfold bind at 1.
  destruct (box_Value _ _ _ _) as [rv st3] eqn:Hvalue.
  destruct (box_Value_events _ _ _ _ _ Hvalue) as (ds & Hds & Hdshape).
  exists ds.
  assert (trace st3 = trace st ++ cs ++ ds) as Hall.
  { rewrite Hds, HdoCheck, Hcs. now rewrite app_assoc. }
  destruct rv as [v|]; [|cbn [snd]; auto].
  unfold bind at 1, lift_option.
  destruct (Check_result _ _ _) as [r0|]; [|cbn [snd]; auto].
  unfold bind at 1.
  destruct (Release b st3) as [rr st4] eqn:Hrel.
  apply Release_trace in Hrel. rewrite <- Hrel in Hall.
  destruct rr; cbn [snd]; auto.
Qed.

(** X11.  Whatever the state of the client and whatever the outcome, a
    call of [Check] consults the cache at most once and first, sends at
    most one request (there is no retry), and writes to the cache at most
    once and only right after the request. *)
Theorem Check_protocol c ctx password st :
  exists cs ds,
    trace (snd (Check dc c ctx password st)) = trace st ++ cs ++ ds
    /\ (cs = []
        \/ cs = [EvContains (prefix_of password) (suffix_of password)])
    /\ (ds = []
        \/ exists req,
             ds = [EvDo req] \/ exists p ss, ds = [EvDo req; EvAdd p ss]).
Proof.
  destruct (Check_events c ctx password st) as (cs & ds & Htr & Hcs & Hds).
  exists cs, ds. split; [exact Htr|]. split; [exact Hcs|].
  destruct Hds as [-> | (x & p & [-> | (ss & ->)])]; eauto 8.
Qed.



(** ** The reference-counted box *)

Lemma State_eta st :
  mkState (world st) (trace st) (bufferPool st) (requests st) (boxes st) = st.
Proof. now destruct st. Qed.

Lemma Acquire_run b st box :
  boxes st !! b = Some box ->
  Acquire b st
  = (Some tt,
     mkState (world st) (trace st) (bufferPool st) (requests st)
       (<[b := mkBox (wrap32 (Refcount box + 1)) (OnRelease box) (Value box)
                 (box_buffer box)]> (boxes st))).
Proof.
  intros Hbox. unfold Acquire, get_box, set_box, bind. now rewrite Hbox.
Qed.

(** [Release] on a box whose count does not reach zero. *)
Lemma Release_run_held b st box :
  boxes st !! b = Some box -> wrap32 (Refcount box - 1) <> 0 ->
  Release b st
  = (Some tt,
     mkState (world st) (trace st) (bufferPool st) (requests st)
       (<[b := mkBox (wrap32 (Refcount box - 1)) (OnRelease box) (Value box)
                 (box_buffer box)]> (boxes st))).
Proof.
  intros Hbox Hn. unfold Release. unfold bind at 1.
  rewrite (Release_dec_run _ _ _ Hbox).
  apply Z.eqb_neq in Hn. rewrite Hn. reflexivity.
Qed.

(** [Release] on a box whose count reaches zero. *)
Lemma Release_run_last b st box ps :
  boxes st !! b = Some box -> wrap32 (Refcount box - 1) = 0 ->
  OnRelease box = Some ps ->
  Release b st
  = (Some tt,
     mkState (world st) (trace st) (box_buffer box :: bufferPool st)
       (delete ps (requests st))
       (<[b := mkBox 0 None (Value box) (box_buffer box)]> (boxes st))).
Proof.
  intros Hbox Hn Hon. unfold Release. unfold bind at 1.
  rewrite (Release_dec_run _ _ _ Hbox). rewrite Hn. cbn [Z.eqb].
  assert (b < length (boxes st))%nat as Hlt by now apply lookup_lt_Some in Hbox.
  unfold bind at 1.
  erewrite Release_call_run;
    [|cbn [boxes]; apply list_lookup_insert_eq; exact Hlt | exact Hon].
  cbn [world trace bufferPool requests boxes box_buffer].
  erewrite Release_clear_run;
    [|cbn [boxes]; apply list_lookup_insert_eq; exact Hlt].
  cbn [world trace bufferPool requests boxes box_buffer Refcount Value].
  now rewrite list_insert_insert_eq.
Qed.

(** X14.  [Acquire] followed by [Release] on a box that is held (its count
    is not zero, and not the largest 32-bit integer) leaves the client as
    it was: [OnRelease] is not called. *)
Theorem Acquire_Release_round_trip b st box :
  boxes st !! b = Some box ->
  - 2 ^ 31 <= Refcount box < 2 ^ 31 - 1 ->
  Refcount box <> 0 ->
  bind (Acquire b) (fun _ => Release b) st = (Some tt, st).
Proof.
  intros Hbox Hrange Hn. unfold bind.
  rewrite (Acquire_run _ _ _ Hbox).
  assert (b < length (boxes st))%nat as Hlt by now apply lookup_lt_Some in Hbox.
  erewrite Release_run_held;
    [|cbn [boxes]; apply list_lookup_insert_eq; exact Hlt|];
    cbn [Refcount OnRelease Value box_buffer world trace bufferPool requests
           boxes].
  - rewrite list_insert_insert_eq.
    rewrite (wrap32_small (Refcount box + 1)) by lia.
    replace (Refcount box + 1 - 1) with (Refcount box) by lia.
    rewrite wrap32_small by lia.
    replace (mkBox (Refcount box) (OnRelease box) (Value box) (box_buffer box))
      with box by now destruct box.
    rewrite list_insert_id by exact Hbox. now rewrite State_eta.
  - rewrite (wrap32_small (Refcount box + 1)) by lia.
    replace (Refcount box + 1 - 1) with (Refcount box) by lia.
    rewrite wrap32_small by lia. exact Hn.
Qed.

Lemma Releases_snoc n b st :
  Releases (S n) b st = bind (Releases n b) (fun _ => Release b) st.
Proof.
  revert st. induction n as [|n IH]; intros st; simpl Releases in *.
  - unfold bind, ret. now destruct (Release b st) as [[[]|] st'].
  - unfold bind in *. destruct (Release b st) as [[[]|] st1]; [|reflexivity].
    apply IH.
Qed.

Lemma Releases_held n b st box :
  boxes st !! b = Some box -> Refcount box = Z.of_nat (S n) ->
  Z.of_nat (S n) < 2 ^ 31 ->
  Releases n b st
  = (Some tt,
     mkState (world st) (trace st) (bufferPool st) (requests st)
       (<[b := mkBox 1 (OnRelease box) (Value box) (box_buffer box)]>
          (boxes st))).
Proof.
  revert st box. induction n as [|n IH]; intros st box Hbox Hn Hlt.
  - simpl. unfold ret.
    replace (mkBox 1 (OnRelease box) (Value box) (box_buffer box))
      with box
      by (destruct box as [r o v bb]; cbn in Hn |- *; rewrite Hn; reflexivity).
    rewrite list_insert_id by exact Hbox. now rewrite State_eta.
  - simpl Releases. unfold bind.
    assert (wrap32 (Refcount box - 1) = Z.of_nat (S n)) as Hdec
        by (rewrite wrap32_small; lia).
    rewrite (Release_run_held _ _ _ Hbox) by lia. rewrite Hdec.
    assert (b < length (boxes st))%nat as Hb
        by now apply lookup_lt_Some in Hbox.
    erewrite IH; [|cbn [boxes]; apply list_lookup_insert_eq; exact Hb
                  |reflexivity|lia].
    cbn [world trace bufferPool requests boxes OnRelease Value box_buffer].
    now rewrite list_insert_insert_eq.
Qed.

(** X15.  A box held [n + 1] times: [n] calls of [Release] only bring the
    count down to one (the table and the pool are untouched), and the
    call after them calls [OnRelease], which takes the task out of the
    table and puts the buffer back in the pool, and is then set to nil. *)
Theorem Releases_last_calls_OnRelease n b st box ps :
  boxes st !! b = Some box ->
  Refcount box = Z.of_nat (S n) -> Z.of_nat (S n) < 2 ^ 31 ->
  OnRelease box = Some ps ->
  Releases n b st
  = (Some tt,
     mkState (world st) (trace st) (bufferPool st) (requests st)
       (<[b := mkBox 1 (Some ps) (Value box) (box_buffer box)]> (boxes st)))
  /\ Releases (S n) b st
     = (Some tt,
        mkState (world st) (trace st) (box_buffer box :: bufferPool st)
          (delete ps (requests st))
          (<[b := mkBox 0 None (Value box) (box_buffer box)]> (boxes st))).
Proof.
  intros Hbox Hn Hlt Hon.
  pose proof (Releases_held n b st box Hbox Hn Hlt) as Hheld.
  rewrite Hon in Hheld. split; [exact Hheld|].
  rewrite Releases_snoc. unfold bind. rewrite Hheld.
  assert (b < length (boxes st))%nat as Hb by now apply lookup_lt_Some in Hbox.
  erewrite Release_run_last;
    [|cbn [boxes]; apply list_lookup_insert_eq; exact Hb
     |reflexivity|reflexivity].
  cbn [world trace bufferPool requests boxes OnRelease Value box_buffer].
  now rewrite list_insert_insert_eq.
Qed.

(** X16.  A box serves once.  On a box that nobody holds, [Acquire]
    followed by [Release] calls [OnRelease] and sets it to nil; doing the
    same again on this box calls the nil function: a panic. *)
Theorem refcountBox_single_use b st box ps :
  boxes st !! b = Some box -> Refcount box = 0 -> OnRelease box = Some ps ->
  let once := bind (Acquire b) (fun _ => Release b) in
  once st
  = (Some tt,
     mkState (world st) (trace st) (box_buffer box :: bufferPool st)
       (delete ps (requests st))
       (<[b := mkBox 0 None (Value box) (box_buffer box)]> (boxes st)))
  /\ fst (bind once (fun _ => once) st) = None.
Proof.
  intros Hbox Hn Hon once.
  assert (b < length (boxes st))%nat as Hb by now apply lookup_lt_Some in Hbox.
  assert (once st
          = (Some tt,
             mkState (world st) (trace st) (box_buffer box :: bufferPool st)
               (delete ps (requests st))
               (<[b := mkBox 0 None (Value box) (box_buffer box)]> (boxes st))))
    as Hfirst.
  { unfold once, bind. rewrite (Acquire_run _ _ _ Hbox), Hn.
    erewrite Release_run_last;
      [|cbn [boxes]; apply list_lookup_insert_eq; exact Hb
       |reflexivity|exact Hon].
    cbn [world trace bufferPool requests boxes OnRelease Value box_buffer].
    now rewrite list_insert_insert_eq. }
  split; [exact Hfirst|].
  unfold bind at 1. rewrite Hfirst. unfold once, bind.
  erewrite Acquire_run by (cbn [boxes]; apply list_lookup_insert_eq; exact Hb).
  cbn [world trace bufferPool requests boxes Refcount OnRelease Value
         box_buffer].
  rewrite list_insert_insert_eq. unfold Release. unfold bind at 1.
  erewrite Release_dec_run
    by (cbn [boxes]; apply list_lookup_insert_eq; exact Hb).
  cbn [world trace bufferPool requests boxes Refcount OnRelease Value
         box_buffer].
  change (wrap32 (wrap32 (0 + 1) - 1) =? 0) with true. cbv iota.
  unfold bind at 1. rewrite list_insert_insert_eq.
  erewrite Release_call_nil;
    [reflexivity | cbn [boxes]; apply list_lookup_insert_eq; exact Hb
     | reflexivity].
Qed.

(** ** The table *)

(** X17.  Two calls of [doCheck] for a prefix that has no task yield the
    same box: the first one creates it and enters it in the table, the
    second one finds it there.  The box is then held twice, and its task
    is the one of the first caller: it will run with the context of the
    first caller, not with that of the second. *)
Theorem doCheck_twice ctx1 ctx2 prefix st :
  requests st !! string_of_list_byte prefix = None ->
  let b := length (boxes st) in
  bind (doCheck ctx1 prefix)
    (fun b1 => bind (doCheck ctx2 prefix) (fun b2 => ret (b1, b2))) st
  = (Some (b, b),
     mkState (world st) (trace st) (tl (bufferPool st))
       (<[string_of_list_byte prefix := b]> (requests st))
       (boxes st ++ [mkBox 2 (Some (string_of_list_byte prefix))
                       (once_pending ctx1 prefix) (hd [] (bufferPool st))])).
Proof.
  intros Hnone b. unfold bind at 1. rewrite (doCheck_fresh _ _ _ Hnone).
  unfold bind at 1.
  erewrite doCheck_join;
    [|cbn [requests]; apply lookup_insert_eq
     |cbn [boxes]; apply lookup_snoc_length].
  cbn [world trace bufferPool requests boxes Refcount OnRelease Value
         box_buffer].
  rewrite insert_snoc_length. reflexivity.
Qed.

End MoreOnTheClient.

(** * More on concurrent callers *)

Section Schedules.

Context {W : Type} (dc : @HTTPClient W).
Implicit Types (c : @PwnedClient W) (st : @State W) (m : @Machine W).

(** ** Any schedule *)

Lemma network_requests_trace st st' :
  trace st' = trace st -> network_requests st' = network_requests st.
Proof. unfold network_requests. now intros ->. Qed.

Lemma box_Value_requests c b st r st' :
  box_Value dc c b st = (r, st') ->
  (network_requests st' <= S (network_requests st))%nat.
Proof.
  intros H. destruct (box_Value_events dc _ _ _ _ _ H) as (ds & Htr & Hds).
  unfold network_requests at 1. rewrite Htr, network_requests_app.
  destruct Hds as [-> | (x & p & [-> | (ss & ->)])]; simpl; lia.
Qed.

(** A step sends a request only when a caller leaves [box.Value()]. *)
Lemma thread_step_requests c t st t' st' :
  thread_step dc c t st = (Some t', st') ->
  (network_requests st' + (if waiting (t_pc t') then 1 else 0)
   <= network_requests st + (if waiting (t_pc t) then 1 else 0))%nat.
Proof.
  unfold thread_step. destruct (t_pc t) as [| |b|b r|b r|b r|r] eqn:Hpc; try unfold bind at 1.
  - destruct (Check_cache _ _ _ _ _) as [[o|] st1] eqn:E; [|discriminate].
    pose proof (Check_cache_frame _ _ _ _ _ _ _ E) as (_ & _ & _ & _ & H & _).
    unfold ret. intros [= <- <-]. cbn [t_pc]. rewrite H.
    destruct o; simpl; lia.
  - destruct (doCheck _ _ _) as [[b|] st1] eqn:E; [|discriminate].
    apply silent_doCheck, network_requests_trace in E.
    unfold ret. intros [= <- <-]. cbn [t_pc waiting]. lia.
  - destruct (box_Value _ _ _ _) as [[v|] st1] eqn:E; [|discriminate].
    apply box_Value_requests in E. unfold bind, lift_option, ret.
    destruct (Check_result _ _ _); [|discriminate].
    intros [= <- <-]. cbn [t_pc waiting]. lia.
  - destruct (Release_dec _ _) as [[z|] st1] eqn:E; [|discriminate].
    apply silent_Release_dec, network_requests_trace in E.
    unfold ret. intros [= <- <-]. cbn [t_pc]. destruct z; simpl; lia.
  - destruct (Release_call _ _) as [[[]|] st1] eqn:E; [|discriminate].
    apply silent_Release_call, network_requests_trace in E.
    unfold ret. intros [= <- <-]. cbn [t_pc waiting]. lia.
  - destruct (Release_clear _ _) as [[[]|] st1] eqn:E; [|discriminate].
    apply silent_Release_clear, network_requests_trace in E.
    unfold ret. intros [= <- <-]. cbn [t_pc waiting]. lia.
  - unfold ret. intros [= <- <-]. rewrite Hpc. lia.
Qed.

Lemma step_requests c tid m m' :
  step dc c tid m = Some m' ->
  (network_requests (shared m') + count waiting (threads m')
   <= network_requests (shared m) + count waiting (threads m))%nat.
Proof.
  unfold step. destruct (threads m !! tid) as [t|] eqn:Ht.
  2:{ intros [= <-]. lia. }
  destruct (thread_step dc c t (shared m)) as [[t'|] st'] eqn:E; [|discriminate].
  intros [= <-]. cbn [shared threads].
  pose proof (thread_step_requests _ _ _ _ _ E).
  pose proof (count_insert waiting _ _ _ t' Ht). lia.
Qed.

(** X18.  However the callers are scheduled, no more requests are sent
    than there are callers that have not yet had the results of their
    task: [n] concurrent calls of [Check] send at most [n] requests. *)
Theorem requests_bounded_by_callers c sched m m' :
  run dc c sched m = Some m' ->
  (network_requests (shared m') + count waiting (threads m')
   <= network_requests (shared m) + count waiting (threads m))%nat
  /\ (network_requests (shared m')
      <= network_requests (shared m) + length (threads m))%nat.
Proof.
  intros Hrun.
  assert (network_requests (shared m') + count waiting (threads m')
          <= network_requests (shared m) + count waiting (threads m))%nat as H.
  { revert m Hrun. induction sched as [|tid sched IH]; intros m; simpl.
    - intros [= <-]. lia.
    - destruct (step dc c tid m) as [m1|] eqn:E; [|discriminate].
      intros Hrun. apply step_requests in E. specialize (IH _ Hrun). lia. }
  split; [exact H|]. pose proof (count_le_length waiting (threads m)). lia.
Qed.

(** X19.  At every point of every execution, each entry of the table is
    a box of the client, and the task of this box, as long as it has not
    run, is the request for the prefix under which the box is filed. *)
Theorem table_stays_ok c sched m :
  table_ok (shared m) ->
  along dc c sched m (fun m' => table_ok (shared m')).
Proof.
  intros Hok. apply (along_invariant dc c (fun m' => table_ok (shared m')));
    [|exact Hok].
  clear. intros tid m m' Hok. unfold step.
  destruct (threads m !! tid) as [t|]; [|now intros [= <-]].
  destruct (thread_step dc c t (shared m)) as [[t'|] st'] eqn:E; [|discriminate].
  intros [= <-]. cbn [shared]. eapply thread_step_table_ok; eassumption.
Qed.

(** ** A box joined while it is being released *)

Lemma step_first c a b st :
  step dc c 0 (mkMachine st [a; b])
  = match thread_step dc c a st with
    | (Some a', st') => Some (mkMachine st' [a'; b])
    | (None, _) => None
    end.
Proof. reflexivity. Qed.

Lemma step_second c a b st :
  step dc c 1 (mkMachine st [a; b])
  = match thread_step dc c b st with
    | (Some b', st') => Some (mkMachine st' [a; b'])
    | (None, _) => None
    end.
Proof. reflexivity. Qed.

Lemma thread_step_AtCache_no_cache c x P s st :
  Cache c = None ->
  thread_step dc c (mkThread x P s AtCache) st
  = (Some (mkThread x P s AtDoCheck), st).
Proof.
  intros Hc. unfold thread_step, Check_cache. cbn [t_pc t_ctx t_prefix t_suffix].
  now rewrite Hc.
Qed.

Lemma thread_step_AtDoCheck c x P s st b st' :
  doCheck x P st = (Some b, st') ->
  thread_step dc c (mkThread x P s AtDoCheck) st
  = (Some (mkThread x P s (AtValue b)), st').
Proof.
  intros H. unfold thread_step. cbn [t_pc t_ctx t_prefix t_suffix].
  unfold bind. now rewrite H.
Qed.

Lemma thread_step_AtValue c x P s st b v st' r :
  box_Value dc c b st = (Some v, st') ->
  Check_result (fst v) (snd v) s = Some r ->
  thread_step dc c (mkThread x P s (AtValue b)) st
  = (Some (mkThread x P s (AtRelease b r)), st').
Proof.
  intros H Hr. unfold thread_step. cbn [t_pc t_ctx t_prefix t_suffix].
  unfold bind, lift_option. now rewrite H, Hr.
Qed.

Lemma thread_step_AtRelease c x P s st b r z st' :
  Release_dec b st = (Some z, st') ->
  thread_step dc c (mkThread x P s (AtRelease b r)) st
  = (Some (mkThread x P s (if z then AtOnRelease b r else Returned r)), st').
Proof.
  intros H. unfold thread_step. cbn [t_pc t_ctx t_prefix t_suffix].
  unfold bind. now rewrite H.
Qed.

Lemma thread_step_AtOnRelease c x P s st b r o st' :
  Release_call b st = (o, st') ->
  thread_step dc c (mkThread x P s (AtOnRelease b r)) st
  = (match o with
     | Some _ => Some (mkThread x P s (AtClear b r))
     | None => None
     end, st').
Proof.
  intros H. unfold thread_step. cbn [t_pc t_ctx t_prefix t_suffix].
  unfold bind. rewrite H. now destruct o.
Qed.

Lemma thread_step_AtClear c x P s st b r st' :
  Release_clear b st = (Some tt, st') ->
  thread_step dc c (mkThread x P s (AtClear b r)) st
  = (Some (mkThread x P s (Returned r)), st').
Proof.
  intros H. unfold thread_step. cbn [t_pc t_ctx t_prefix t_suffix].
  unfold bind. now rewrite H.
Qed.

(** X20.  The decrement of [Release] is not under the lock of the table.
    Two callers share a prefix and the client has no cache.  The first
    one gets its results and brings the count to zero; before it has
    taken the task out of the table the second one enters [doCheck],
    finds the task and acquires the box; the first one then calls
    [OnRelease] and sets it to nil.  When the second caller releases the
    box, the count is zero again and the nil function is called: the
    program panics. *)
Theorem Release_race_panics c st x1 x2 P s1 s2 :
  Cache c = None ->
  requests st !! string_of_list_byte P = None ->
  fst (Do (client_of dc c) (request_for c x1 P) (world st)) <> (None, None) ->
  run dc c [0; 0; 0; 0; 1; 1; 0; 0; 1; 1; 1]%nat
    (mkMachine st [mkThread x1 P s1 AtCache; mkThread x2 P s2 AtCache])
  = None.
Proof.
  intros Hc Hnone HDo.
  destruct (doRequest_returns dc c x1 (mkBuffer (hd [] (bufferPool st)) false [])
              P (joined_fresh st x1 P) HDo)
    as (res & err & buf & st3 & Hreq & Hres).
  destruct (Hres s1) as [r1 Hr1]. destruct (Hres s2) as [r2 Hr2].
  (* the first caller: cache, doCheck, box.Value(), the decrement *)
  cbn [run].
  rewrite step_first, (thread_step_AtCache_no_cache _ _ _ _ _ Hc).
  rewrite step_first, (thread_step_AtDoCheck _ _ _ _ _ _ _ (doCheck_fresh _ _ _ Hnone)).
  fold (joined_fresh st x1 P).
  rewrite step_first.
  erewrite thread_step_AtValue; cycle 1.
  { etransitivity;
      [exact (box_Value_pending dc c (length (boxes st)) (joined_fresh st x1 P)
                (mkBox 1 (Some (string_of_list_byte P)) (once_pending x1 P) (hd [] (bufferPool st)))
                x1 P (lookup_snoc_length _ _) eq_refl)|].
    cbn [box_buffer]. rewrite Hreq. reflexivity. }
  { exact Hr1. }
  cbn [joined_fresh world trace bufferPool requests boxes Refcount OnRelease
         Value box_buffer].
  rewrite insert_snoc_length.
  rewrite step_first.
  erewrite thread_step_AtRelease
    by (erewrite Release_dec_run by apply lookup_snoc_length; reflexivity).
  cbn [world trace bufferPool requests boxes Refcount OnRelease Value
         box_buffer].
  rewrite insert_snoc_length. change (wrap32 (1 - 1)) with 0.
  cbn [Z.eqb].
  (* the second caller: cache, doCheck *)
  rewrite step_second, (thread_step_AtCache_no_cache _ _ _ _ _ Hc).
  rewrite step_second.
  erewrite thread_step_AtDoCheck; cycle 1.
  { erewrite doCheck_join;
      [reflexivity | cbn [requests]; apply lookup_insert_eq
       | cbn [boxes]; apply lookup_snoc_length]. }
  cbn [world trace bufferPool requests boxes Refcount OnRelease Value
         box_buffer].
  rewrite insert_snoc_length. change (wrap32 (0 + 1)) with 1.
  (* the first caller: OnRelease, then nil *)
  rewrite step_first.
  erewrite thread_step_AtOnRelease; cycle 1.
  { erewrite Release_call_run;
      [reflexivity | cbn [boxes]; apply lookup_snoc_length | reflexivity]. }
  cbn [world trace bufferPool requests boxes Refcount OnRelease Value
         box_buffer].
  rewrite step_first.
  erewrite thread_step_AtClear; cycle 1.
  { erewrite Release_clear_run by (cbn [boxes]; apply lookup_snoc_length).
    reflexivity. }
  cbn [world trace bufferPool requests boxes Refcount OnRelease Value
         box_buffer].
  rewrite insert_snoc_length.
  (* the second caller: box.Value(), the decrement, OnRelease *)
  rewrite step_second.
  erewrite thread_step_AtValue; cycle 1.
  { erewrite box_Value_done;
      [reflexivity | cbn [boxes]; apply lookup_snoc_length | reflexivity]. }
  { exact Hr2. }
  rewrite step_second.
  erewrite thread_step_AtRelease
    by (erewrite Release_dec_run by (cbn [boxes]; apply lookup_snoc_length);
        reflexivity).
  cbn [world trace bufferPool requests boxes Refcount OnRelease Value
         box_buffer].
  rewrite insert_snoc_length. change (wrap32 (1 - 1)) with 0.
  cbn [Z.eqb].
  rewrite step_second.
  erewrite thread_step_AtOnRelease; cycle 1.
  { erewrite Release_call_nil;
      [reflexivity | cbn [boxes]; apply lookup_snoc_length | reflexivity]. }
  reflexivity.
Qed.

(** X21.  In the same situation, when the second caller also brings the
    count to zero before the first one has called [OnRelease], both call
    it: the two calls of [Check] return, one request has been sent, and
    the pooled buffer of the box has been put back in the pool twice. *)
Theorem Release_race_puts_twice c st x1 x2 P s1 s2 :
  Cache c = None ->
  requests st !! string_of_list_byte P = None ->
  fst (Do (client_of dc c) (request_for c x1 P) (world st)) <> (None, None) ->
  exists m' buffer,
    run dc c [0; 0; 0; 0; 1; 1; 1; 1; 1; 0; 0; 1]%nat
      (mkMachine st [mkThread x1 P s1 AtCache; mkThread x2 P s2 AtCache])
    = Some m'
    /\ forallb returned (threads m') = true
    /\ network_requests (shared m') = S (network_requests st)
    /\ requests (shared m') = requests st
    /\ bufferPool (shared m') = buffer :: buffer :: tl (bufferPool st).
Proof.
  intros Hc Hnone HDo.
  destruct (doRequest_returns dc c x1 (mkBuffer (hd [] (bufferPool st)) false [])
              P (joined_fresh st x1 P) HDo)
    as (res & err & buf & st3 & Hreq & Hres).
  destruct (Hres s1) as [r1 Hr1]. destruct (Hres s2) as [r2 Hr2].
  pose proof (doRequest_one_request _ _ _ _ _ _ _ _ Hreq) as Hone.
  change (network_requests (joined_fresh st x1 P)) with (network_requests st)
    in Hone.
  do 2 eexists. split.
  - (* the first caller: cache, doCheck, box.Value(), the decrement *)
    cbn [run].
    rewrite step_first, (thread_step_AtCache_no_cache _ _ _ _ _ Hc).
    rewrite step_first,
      (thread_step_AtDoCheck _ _ _ _ _ _ _ (doCheck_fresh _ _ _ Hnone)).
    fold (joined_fresh st x1 P).
    rewrite step_first.
    erewrite thread_step_AtValue; cycle 1.
    { etransitivity;
        [exact (box_Value_pending dc c (length (boxes st)) (joined_fresh st x1 P)
                  (mkBox 1 (Some (string_of_list_byte P)) (once_pending x1 P)
                     (hd [] (bufferPool st)))
                  x1 P (lookup_snoc_length _ _) eq_refl)|].
      cbn [box_buffer]. rewrite Hreq. reflexivity. }
    { exact Hr1. }
    cbn [joined_fresh world trace bufferPool requests boxes Refcount OnRelease
           Value box_buffer].
    rewrite insert_snoc_length.
    rewrite step_first.
    erewrite thread_step_AtRelease
      by (erewrite Release_dec_run by apply lookup_snoc_length; reflexivity).
    cbn [world trace bufferPool requests boxes Refcount OnRelease Value
           box_buffer].
    rewrite insert_snoc_length. change (wrap32 (1 - 1)) with 0.
    cbn [Z.eqb].
    (* the second caller: cache, doCheck, box.Value(), the decrement *)
    rewrite step_second, (thread_step_AtCache_no_cache _ _ _ _ _ Hc).
    rewrite step_second.
    erewrite thread_step_AtDoCheck; cycle 1.
    { erewrite doCheck_join;
        [reflexivity | cbn [requests]; apply lookup_insert_eq
         | cbn [boxes]; apply lookup_snoc_length]. }
    cbn [world trace bufferPool requests boxes Refcount OnRelease Value
           box_buffer].
    rewrite insert_snoc_length. change (wrap32 (0 + 1)) with 1.
    rewrite step_second.
    erewrite thread_step_AtValue; cycle 1.
    { erewrite box_Value_done;
        [reflexivity | cbn [boxes]; apply lookup_snoc_length | reflexivity]. }
    { exact Hr2. }
    rewrite step_second.
    erewrite thread_step_AtRelease
      by (erewrite Release_dec_run by (cbn [boxes]; apply lookup_snoc_length);
          reflexivity).
    cbn [world trace bufferPool requests boxes Refcount OnRelease Value
           box_buffer].
    rewrite insert_snoc_length. change (wrap32 (1 - 1)) with 0.
    cbn [Z.eqb].
    (* both call OnRelease, then both set it to nil *)
    rewrite step_second.
    erewrite thread_step_AtOnRelease; cycle 1.
    { erewrite Release_call_run;
        [reflexivity | cbn [boxes]; apply lookup_snoc_length | reflexivity]. }
    cbn [world trace bufferPool requests boxes Refcount OnRelease Value
           box_buffer].
    rewrite step_first.
    erewrite thread_step_AtOnRelease; cycle 1.
    { erewrite Release_call_run;
        [reflexivity | cbn [boxes]; apply lookup_snoc_length | reflexivity]. }
    cbn [world trace bufferPool requests boxes Refcount OnRelease Value
           box_buffer].
    rewrite step_first.
    erewrite thread_step_AtClear; cycle 1.
    { erewrite Release_clear_run by (cbn [boxes]; apply lookup_snoc_length).
      reflexivity. }
    cbn [world trace bufferPool requests boxes Refcount OnRelease Value
           box_buffer].
    rewrite insert_snoc_length.
    rewrite step_second.
    erewrite thread_step_AtClear; cycle 1.
    { erewrite Release_clear_run by (cbn [boxes]; apply lookup_snoc_length).
      reflexivity. }
    reflexivity.
  - cbn [shared threads world trace bufferPool requests boxes Refcount
           OnRelease Value box_buffer].
    split; [reflexivity|]. split; [exact Hone|]. split; [|reflexivity].
    rewrite delete_delete_eq. apply delete_insert_id. exact Hnone.
Qed.

End Schedules.

(** * The pooled buffer across calls *)

Section StaleBuffer.

Context {W : Type} (dc : @HTTPClient W).
Implicit Types (c : @PwnedClient W) (st : @State W) (m : @Machine W).

Lemma Check_cache_none c x prefix suffix st :
  Cache c = None -> Check_cache c x prefix suffix st = (Some None, st).
Proof. intros Hc. unfold Check_cache. now rewrite Hc. Qed.

(** X22.  What a failed read leaves in the pooled buffer is parsed with
    the next body.  A client without cache makes two calls in a row, for
    prefixes that have no task; the body of the first response breaks off
    after [data1], the second response is read in full.  The pool hands
    the buffer of the first call to the second; the second call then
    decides on the lines of [data1] followed by the body of its own
    response. *)
Theorem Check_after_failed_read c ctx1 ctx2 password1 password2 st
    res1 data1 e w1 res2 data2 w2 :
  let x1 := ctx_or_Background ctx1 in
  let x2 := ctx_or_Background ctx2 in
  let body := hd [] (bufferPool st) ++ data1 ++ data2 in
  Cache c = None ->
  requests st !! string_of_list_byte (prefix_of password1) = None ->
  requests st !! string_of_list_byte (prefix_of password2) = None ->
  Do (client_of dc c) (request_for c x1 (prefix_of password1)) (world st)
    = ((Some res1, None), w1) ->
  StatusCode res1 = http_StatusOK ->
  read_all (Body res1) = (data1, Some e) ->
  Do (client_of dc c) (request_for c x2 (prefix_of password2)) w1
    = ((Some res2, None), w2) ->
  StatusCode res2 = http_StatusOK ->
  read_all (Body res2) = (data2, None) ->
  Z.of_nat (length body) < 2 ^ 63 ->
  exists found,
    fst (bind (Check dc c ctx1 password1)
           (fun r1 => bind (Check dc c ctx2 password2)
                        (fun r2 => ret (r1, r2))) st)
    = Some ((false, Some e), (found, None))
    /\ (found = true <->
        exists line o,
          In line (lines_of body)
          /\ pwnedLinePattern_FindSubmatch line = Some (suffix_of password2, o)
          /\ kept o = true).
Proof.
  intros x1 x2 body Hc Hn1 Hn2 HDo1 Hok1 Hread1 HDo2 Hok2 Hread2 Hlen.
  subst x1 x2.
  pose proof (Check_read_error_run dc c ctx1 password1 st st res1 data1 e w1
                (Check_cache_none _ _ _ _ _ Hc) Hn1 HDo1 Hok1 Hread1) as HCheck1.
  cbv zeta in HCheck1.
  set (st1 := mkState w1 _ _ _ _) in HCheck1.
  destruct (Check_ok_run dc c ctx2 password2 st1 st1 res2 data2 w2
              (Check_cache_none _ _ _ _ _ Hc) Hn2 HDo2 Hok2 Hread2
              ltac:(intros cache ss Hc'; congruence))
    as (st2 & HCheck2 & _).
  eexists. split.
  - unfold bind, ret. rewrite HCheck1, HCheck2. reflexivity.
  - rewrite Lookup_Parse.
    + unfold st1. cbn [holding Buffer bufferPool hd]. rewrite <- app_assoc.
      apply In_retained.
    + reflexivity.
    + unfold st1. cbn [holding Buffer bufferPool hd]. rewrite <- app_assoc.
      exact Hlen.
Qed.

End StaleBuffer.

(** * Scenarios for the further properties *)

(** X1 on a buffer whose flag is on although its suffixes are not in
    order. *)
Lemma Lookup_never_invents_witness :
  In suffix_2 (Suffixes (mkBuffer [] true [suffix_1; suffix_0; suffix_2])).
Proof.
  apply (Lookup_never_invents (mkBuffer [] true [suffix_1; suffix_0; suffix_2])
           suffix_2).
  - vm_compute. reflexivity.
  - vm_compute. reflexivity.
Defined.

(** X3 on the body of one line. *)
Lemma Lookup_Parse_shape_witness :
  In suffix_0 []
  \/ (length suffix_0 = 35%nat /\ forallb is_upper_hex suffix_0 = true).
Proof.
  apply (Lookup_Parse_shape (holding (body_of [line_of suffix_0 "1"] None))
           suffix_0).
  - vm_compute. reflexivity.
  - vm_compute. reflexivity.
Defined.

(** X4 on a body with a line of text between two lines of the expected
    form. *)
Lemma Parse_skips_unmatched_line_witness :
  Parse (holding (render (line_of suffix_0 "1") ++ bytes "Bad Request"
                  ++ LF :: render (line_of suffix_1 "2")))
  = Parse (holding (render (line_of suffix_0 "1")
                    ++ render (line_of suffix_1 "2"))).
Proof.
  apply (Parse_skips_unmatched_line (render (line_of suffix_0 "1"))
           (bytes "Bad Request") (render (line_of suffix_1 "2")) false []).
  - right. exists (render_unterminated (line_of suffix_0 "1")). reflexivity.
  - reflexivity.
  - reflexivity.
Defined.

(** X8 on [TestSingleRequestForSamePrefix]'s transport, one caller. *)
Lemma Check_transport_error_witness :
  exists st',
    Check offline canceled_client background password1 fresh
    = (Some (false, Some context_Canceled), st')
    /\ trace st'
       = trace fresh ++ [EvDo (request_for canceled_client context_Background
                                 (prefix_of password1))]
    /\ requests st' = requests fresh
    /\ bufferPool st' = hd [] (bufferPool fresh) :: tl (bufferPool fresh).
Proof.
  exact (Check_transport_error offline canceled_client background password1
           fresh fresh None context_Canceled 0%nat eq_refl eq_refl eq_refl).
Defined.

(** X9 on a body that breaks off after 16 bytes: they are in the buffer
    that goes back to the pool. *)
Lemma Check_body_read_error_witness :
  exists st',
    Check offline broken_body_client background password1 fresh
    = (Some (false, Some context_Canceled), st')
    /\ trace st'
       = trace fresh ++ [EvDo (request_for broken_body_client
                                 context_Background (prefix_of password1))]
    /\ requests st' = requests fresh
    /\ bufferPool st'
       = (hd [] (bufferPool fresh) ++ bytes "214943DAAD1D64C1")
         :: tl (bufferPool fresh).
Proof.
  exact (Check_body_read_error offline broken_body_client background password1
           fresh fresh _ (bytes "214943DAAD1D64C1") context_Canceled 0%nat
           eq_refl eq_refl eq_refl eq_refl eq_refl).
Defined.

(** X10 on [TestCheckWithNilContext]. *)
Lemma Check_found_witness :
  exists found st',
    Check offline ok_client None password1 fresh = (Some (found, None), st')
    /\ (found = true <->
        exists line o,
          In line (lines_of
                     (hd [] (bufferPool fresh)
                      ++ bytes "214943DAAD1D64C102FAEC29DE4AFE9DA3D:1"
                      ++ [CR; LF]))
          /\ pwnedLinePattern_FindSubmatch line = Some (suffix_of password1, o)
          /\ kept o = true)
    /\ network_requests st' = S (network_requests fresh)
    /\ requests st' = requests fresh
    /\ bufferPool st' = [] :: tl (bufferPool fresh).
Proof.
  refine (Check_found offline ok_client None password1 fresh fresh ok_response
            (bytes "214943DAAD1D64C102FAEC29DE4AFE9DA3D:1" ++ [CR; LF]) 0%nat
            eq_refl eq_refl eq_refl eq_refl eq_refl _ _).
  - intros cache ss Hc. discriminate Hc.
  - vm_compute. reflexivity.
Defined.


(** X14 on a box held twice. *)
Lemma Acquire_Release_round_trip_witness :
  bind (Acquire 0) (fun _ => Release 0) (holding_task 2)
  = (Some tt, holding_task 2).
Proof.
  apply (Acquire_Release_round_trip 0 (holding_task 2) (held_box 2) eq_refl).
  - vm_compute. split; [discriminate | reflexivity].
  - discriminate.
Defined.

(** X15 on a box held twice. *)
Lemma Releases_last_calls_OnRelease_witness :
  requests (snd (Releases 1 0 (holding_task 2))) !! "E38AD"%string = Some 0%nat
  /\ requests (snd (Releases 2 0 (holding_task 2))) !! "E38AD"%string = None.
Proof.
  destruct (Releases_last_calls_OnRelease 1 0 (holding_task 2) (held_box 2)
              "E38AD"%string eq_refl eq_refl eq_refl eq_refl) as [H1 H2].
  rewrite H1, H2. split; reflexivity.
Defined.

(** X16 on [TestRefcountBoxRelease], and once more. *)
Lemma refcountBox_single_use_witness :
  let once := bind (Acquire 0) (fun _ => Release 0) in
  requests (snd (once (holding_task 0))) = ∅
  /\ fst (bind once (fun _ => once) (holding_task 0)) = None.
Proof.
  intros once.
  destruct (refcountBox_single_use 0 (holding_task 0) (held_box 0)
              "E38AD"%string eq_refl eq_refl eq_refl) as [H1 H2].
  split; [|exact H2]. fold once in H1. rewrite H1. reflexivity.
Defined.

(** X17 on a new client. *)
Lemma doCheck_twice_witness :
  fst (bind (doCheck context_Background (bytes "E38AD"))
         (fun b1 => bind (doCheck (context_Other 1) (bytes "E38AD"))
                      (fun b2 => ret (b1, b2))) fresh)
  = Some (0%nat, 0%nat).
Proof.
  rewrite (doCheck_twice context_Background (context_Other 1) (bytes "E38AD")
             fresh eq_refl).
  reflexivity.
Defined.

(** X18 on the two callers of the schedule in which they are not
    coalesced: two requests, and no more. *)
Lemma requests_bounded_by_callers_witness :
  exists m',
    run offline canceled_client [1; 0; 0; 0; 0; 0; 1; 1; 0; 1; 1; 1]%nat
      two_callers = Some m'
    /\ (network_requests (shared m')
        <= network_requests (shared two_callers)
           + length (threads two_callers))%nat.
Proof.
  eexists. split; [vm_compute; reflexivity|].
  refine (proj2 (requests_bounded_by_callers offline canceled_client
                   [1; 0; 0; 0; 0; 0; 1; 1; 0; 1; 1; 1]%nat two_callers _ _)).
  vm_compute. reflexivity.
Defined.

(** X19 on the two callers. *)
Lemma table_stays_ok_witness :
  along offline canceled_client [0; 1; 0; 1; 0; 1]%nat two_callers
    (fun m' => table_ok (shared m')).
Proof.
  apply (table_stays_ok offline canceled_client [0; 1; 0; 1; 0; 1]%nat
           two_callers).
  apply table_ok_empty.
Defined.

(** X20 on the two callers of [TestSingleRequestForSamePrefix]. *)
Lemma Release_race_panics_witness :
  run offline canceled_client [0; 0; 0; 0; 1; 1; 0; 0; 1; 1; 1]%nat two_callers
  = None.
Proof.
  refine (Release_race_panics offline canceled_client fresh context_Background
            context_Background (prefix_of password1) (suffix_of password1)
            (suffix_of password1) eq_refl _ _).
  - reflexivity.
  - vm_compute. discriminate.
Defined.

(** X21 on the two callers of [TestSingleRequestForSamePrefix]. *)
Lemma Release_race_puts_twice_witness :
  exists m' buffer,
    run offline canceled_client [0; 0; 0; 0; 1; 1; 1; 1; 1; 0; 0; 1]%nat
      two_callers = Some m'
    /\ forallb returned (threads m') = true
    /\ network_requests (shared m') = S (network_requests fresh)
    /\ requests (shared m') = requests fresh
    /\ bufferPool (shared m') = buffer :: buffer :: tl (bufferPool fresh).
Proof.
  refine (Release_race_puts_twice offline canceled_client fresh
            context_Background context_Background (prefix_of password1)
            (suffix_of password1) (suffix_of password1) eq_refl _ _).
  - reflexivity.
  - vm_compute. discriminate.
Defined.

(** X22 on a transport whose first body breaks off in the middle of the
    line of the password: the second call, whose response holds this
    line in full, does not find it. *)
Example check_after_broken_body :
  fst (bind (Check offline flaky_client background password1)
         (fun r1 => bind (Check offline flaky_client background password1)
                      (fun r2 => ret (r1, r2))) fresh)
  = Some ((false, Some context_Canceled), (false, None)).
Proof. vm_compute. reflexivity. Qed.

Lemma Check_after_failed_read_witness :
  exists found,
    fst (bind (Check offline flaky_client background password1)
           (fun r1 => bind (Check offline flaky_client background password1)
                        (fun r2 => ret (r1, r2))) fresh)
    = Some ((false, Some context_Canceled), (found, None))
    /\ (found = true <->
        exists line o,
          In line (lines_of
                     (hd [] (bufferPool fresh) ++ bytes "214943DAAD1D64C1"
                      ++ bytes "214943DAAD1D64C102FAEC29DE4AFE9DA3D:1"
                      ++ [CR; LF]))
          /\ pwnedLinePattern_FindSubmatch line = Some (suffix_of password1, o)
          /\ kept o = true).
Proof.
  refine (Check_after_failed_read offline flaky_client background background
            password1 password1 fresh _ (bytes "214943DAAD1D64C1")
            context_Canceled 1%nat ok_response
            (bytes "214943DAAD1D64C102FAEC29DE4AFE9DA3D:1" ++ [CR; LF]) 2%nat
            eq_refl eq_refl eq_refl eq_refl eq_refl eq_refl eq_refl eq_refl
            eq_refl _).
  vm_compute. reflexivity.
Defined.
